(** * dice-forge: the dice-formula engine ([lib/dice-utils.ts])

    A shallow embedding of the tokenizer, the shunting-yard evaluator and the
    probability-distribution engine of the revision that supports
    parentheses, followed by the properties established about them.  The
    tokenizer of the earlier revision is kept in [Legacy] for comparison.

    Modelling conventions.
    - A JavaScript [number] is an exact rational ([Q]) or one of the three
      non-finite values [Infinity], [-Infinity] and [NaN], which are
      constructors of [num]; the infinities are what a quotient by zero
      gives.  Rounding of IEEE doubles, overflow and the sign of zero (zero
      is the positive zero) are outside the model.
    - Dice counts and sides are integers ([Z]); a loop [for (i = 0; i < n; i++)]
      runs [Z.to_nat n] times.
    - A string is a [string] whose characters are code units below 256.
    - A [Map] is an association list in insertion order, keys compared as
      numbers.
    - A JavaScript array used as a stack ([push]/[pop]) is a list whose head
      is the top of the stack, so [values[values.length - 1]] is the head.
    - [throw new Error(..)] is the [Throw] constructor of [result].
    - [Math.random()] is an oracle [nat -> Q] read through a cursor. *)

From Stdlib Require Import ZArith QArith Qround List String Ascii Bool Lia Lqa.
From Stdlib Require Import Sorting.Sorted Sorting.Permutation.
Import ListNotations.

Local Open Scope Z_scope.

(* ================================================================== *)
(** ** Data model *)

(** ['+' | '-' | '*' | '/'] *)
Inductive Operator := Plus | Minus | Times | Divide.

Inductive Paren := Open | Close.

(** [ParsedTerm = DiceTerm | NumberTerm | OperatorTerm | ParenthesisTerm]. *)
Inductive ParsedTerm :=
| DiceTerm (count sides : Z)
| NumberTerm (value : Q)
| OperatorTerm (value : Operator)
| ParenthesisTerm (value : Paren).

(** [CalculationTerm = DiceTerm | NumberTerm], the argument of [resolveTerm]
    and [getTermDistribution]. *)
Inductive CalculationTerm :=
| CDice (count sides : Z)
| CNumber (value : Q).

(** A number as the scalar evaluator sees it. *)
Inductive num :=
| Fin (q : Q)
| PosInf
| NegInf
| NaN.

(** Numeric equality on [num]; [NaN] is only used here as a result marker,
    so two [NaN] results are identified. *)
Definition num_eq (a b : num) : Prop :=
  match a, b with
  | Fin x, Fin y => (x == y)%Q
  | PosInf, PosInf => True
  | NegInf, NegInf => True
  | NaN, NaN => True
  | _, _ => False
  end.

Inductive result (A : Type) :=
| Ok (a : A)
| Throw (msg : string).
Arguments Ok {A} a.
Arguments Throw {A} msg.

(* ================================================================== *)
(** ** Strings and the regular expressions of the tokenizer *)

Module Lex.

Local Open Scope string_scope.

Definition code (c : ascii) : N := N_of_ascii c.

(** [\d] *)
Definition isDigit (c : ascii) : bool :=
  ((48 <=? code c) && (code c <=? 57))%N.

(** [\s], restricted to code units below 256. *)
Definition isSpace (c : ascii) : bool :=
  (((9 <=? code c) && (code c <=? 13)) || (code c =? 32) || (code c =? 160))%N.

(** [String.prototype.toLowerCase] on one code unit below 256. *)
Definition lower (c : ascii) : ascii :=
  let n := code c in
  if (((65 <=? n) && (n <=? 90))
      || ((192 <=? n) && (n <=? 222) && negb (n =? 215)))%N
  then ascii_of_N (n + 32) else c.

(** [formula.replace(/\s+/g, '').toLowerCase()] *)
Fixpoint clean (s : string) : string :=
  match s with
  | EmptyString => EmptyString
  | String c s' => if isSpace c then clean s' else String (lower c) (clean s')
  end.

Fixpoint take (n : nat) (s : string) : string :=
  match n, s with
  | S k, String c s' => String c (take k s')
  | _, _ => EmptyString
  end.

Fixpoint drop (n : nat) (s : string) : string :=
  match n, s with
  | S k, String _ s' => drop k s'
  | _, _ => s
  end.

(** Length of the longest run of digits at the start of [s] (greedy [\d+]). *)
Fixpoint digitsPrefix (s : string) : nat :=
  match s with
  | String c s' => if isDigit c then S (digitsPrefix s') else O
  | EmptyString => O
  end.

Definition digitVal (c : ascii) : Z := Z.of_N (code c) - 48.

Fixpoint digitsValueFrom (acc : Z) (s : string) : Z :=
  match s with
  | String c s' => if isDigit c then digitsValueFrom (10 * acc + digitVal c) s' else acc
  | EmptyString => acc
  end.

(** [parseInt(s)] for a string that carries no sign or leading blank:
    the value of the leading digits, [None] (NaN) when there are none. *)
Definition parseInt (s : string) : option Z :=
  match digitsPrefix s with
  | O => None
  | _ => Some (digitsValueFrom 0 s)
  end.

(** [\d+] followed by [sep] followed by [\d+], anchored at the start of [s]:
    the length matched.  [\d+] is greedy, and giving digits back can never
    help since the separator is not a digit. *)
Definition matchPair (sep : ascii) (s : string) : option nat :=
  match digitsPrefix s with
  | O => None
  | n =>
      match drop n s with
      | String c r =>
          if Ascii.eqb c sep then
            match digitsPrefix r with
            | O => None
            | m => Some (n + 1 + m)%nat
            end
          else None
      | EmptyString => None
      end
  end.

(** [\d+d\d+] *)
Definition altDice (s : string) : option nat := matchPair "d"%char s.
(** [\d+\.\d+] *)
Definition altDecimal (s : string) : option nat := matchPair "."%char s.
(** [\d+] *)
Definition altInt (s : string) : option nat :=
  match digitsPrefix s with
  | O => None
  | n => Some n
  end.

(** A character class such as [[+\-*/()]], given by its members. *)
Definition altSymbol (symbols : list ascii) (s : string) : option nat :=
  match s with
  | String c _ => if existsb (Ascii.eqb c) symbols then Some 1%nat else None
  | EmptyString => None
  end.

Definition orElse {A} (a b : option A) : option A :=
  match a with
  | Some _ => a
  | None => b
  end.

(** One attempt of [/(\d+d\d+|\d+\.\d+|\d+|[symbols])/] at the start of [s]:
    the alternatives are tried in order. *)
Definition matchAt (symbols : list ascii) (s : string) : option nat :=
  orElse (altDice s)
         (orElse (altDecimal s) (orElse (altInt s) (altSymbol symbols s))).

(** [cleanFormula.match(regex)] with the [g] flag: all matches from left to
    right; a position where nothing matches is skipped.  [skip] counts the
    characters of the current match that are still to be stepped over. *)
Fixpoint scan (symbols : list ascii) (s : string) (skip : nat) : list string :=
  match s with
  | EmptyString => []
  | String _ s' =>
      match skip with
      | S k => scan symbols s' k
      | O =>
          match matchAt symbols s with
          | Some n => take n s :: scan symbols s' (n - 1)
          | None => scan symbols s' 0
          end
      end
  end.

(** [/(\d+d\d+|\d+\.\d+|\d+|[+\-*/()])/g] *)
Definition matchAll (s : string) : list string :=
  scan ["+"; "-"; "*"; "/"; "("; ")"]%char s 0.

(** [s.split('d')] *)
Fixpoint splitOn (sep : ascii) (cur : string) (s : string) : list string :=
  match s with
  | EmptyString => [cur]
  | String c s' =>
      if Ascii.eqb c sep then cur :: splitOn sep EmptyString s'
      else splitOn sep (cur ++ String c EmptyString) s'
  end.

Definition split (sep : ascii) (s : string) : list string :=
  splitOn sep EmptyString s.

(** [/^\d/] *)
Definition startsWithDigit (s : string) : bool :=
  match s with
  | String c _ => isDigit c
  | EmptyString => false
  end.

(** [/^\d+d\d+/] (not anchored at the end) *)
Definition startsWithDice (s : string) : bool :=
  match altDice s with
  | Some _ => true
  | None => false
  end.

(** [/^\d+d\d+$/] *)
Definition isDiceToken (s : string) : bool :=
  match altDice s with
  | Some n => (n =? String.length s)%nat
  | None => false
  end.

(** [/^\d+(\.\d+)?$/] *)
Definition isUnsignedNumber (s : string) : bool :=
  match digitsPrefix s with
  | O => false
  | n =>
      match drop n s with
      | EmptyString => true
      | String c r =>
          Ascii.eqb c "."%char
          && negb (digitsPrefix r =? 0)%nat
          && (digitsPrefix r =? String.length r)%nat
      end
  end.

(** [/^-?\d+(\.\d+)?$/] *)
Definition isNumberToken (s : string) : bool :=
  match s with
  | String "-"%char r => isUnsignedNumber r
  | _ => isUnsignedNumber s
  end.

(** [/^-(\d+d\d+)$/] *)
Definition isNegDiceToken (s : string) : bool :=
  match s with
  | String "-"%char r => isDiceToken r
  | _ => false
  end.

(** [parseFloat] on an unsigned literal [\d+(\.\d+)?]. *)
Definition parseUnsigned (s : string) : Q :=
  let n := digitsPrefix s in
  let int := digitsValueFrom 0 s in
  match drop n s with
  | String "."%char r =>
      match digitsPrefix r with
      | O => inject_Z int
      | m => Qmake (int * 10 ^ Z.of_nat m + digitsValueFrom 0 r)
                   (Z.to_pos (10 ^ Z.of_nat m))
      end
  | _ => inject_Z int
  end.

(** [parseFloat(token)] on a token accepted by [isNumberToken]. *)
Definition parseFloat (s : string) : Q :=
  match s with
  | String "-"%char r => Qopp (parseUnsigned r)
  | _ => parseUnsigned s
  end.

End Lex.

(* ================================================================== *)
(** ** Tokenizer ([tokenizeFormula], [parseDiceFormula]) *)

Local Open Scope string_scope.

Definition inList (s : string) (l : list string) : bool :=
  existsb (String.eqb s) l.

(** [token === '+' || token === '-'] *)
Definition isSign (token : string) : bool :=
  String.eqb token "+" || String.eqb token "-".

(** [prevToken === null || ['(','+','-','*','/'].includes(prevToken)] where
    [prevToken = i > 0 ? processedTokens[processedTokens.length - 1] : null].
    [last processed] is [None] for the [undefined] read off an empty array. *)
Definition signPosition (i : nat) (processed : list string) : bool :=
  (i =? 0)%nat
  || match last (map Some processed) None with
     | Some prev => inList prev ["("; "+"; "-"; "*"; "/"]
     | None => false
     end.

(** [nextToken && (nextToken.match(/^\d/) || nextToken.match(/^\d+d\d+/))] *)
Definition foldable (nextToken : string) : bool :=
  negb (String.eqb nextToken EmptyString)
  && (Lex.startsWithDigit nextToken || Lex.startsWithDice nextToken).

(** The first loop of [tokenizeFormula].  [token] is [tokens[i]] as the
    iteration reads it (the array cell may have been overwritten by the
    previous iteration), [rest] is [tokens[i+1 ..]]. *)
Fixpoint foldSigns (i : nat) (token : string) (rest : list string)
         (processed : list string) : list string :=
  match rest with
  | [] => processed ++ [token]
  | nextToken :: rest' =>
      if isSign token && signPosition i processed && foldable nextToken
      then foldSigns (S i) (token ++ nextToken) rest' processed
      else foldSigns (S i) nextToken rest' (processed ++ [token])
  end.

Definition foldUnary (tokens : list string) : list string :=
  match tokens with
  | [] => []
  | token :: rest => foldSigns 0 token rest []
  end.

(** [const [countStr, sidesStr] = s.split('d'); ...] with the validity test
    [isNaN(count) || isNaN(sides) || sides <= 0 || count <= 0]. *)
Definition parseDice (s : string) : option (Z * Z) :=
  let parts := Lex.split "d"%char s in
  let count :=
    match nth_error parts 0 with
    | Some countStr =>
        if String.eqb countStr EmptyString then Some 1 else Lex.parseInt countStr
    | None => None
    end in
  let sides :=
    match nth_error parts 1 with
    | Some sidesStr => Lex.parseInt sidesStr
    | None => None
    end in
  match count, sides with
  | Some c, Some s => if ((s <=? 0) || (c <=? 0))%Z then None else Some (c, s)
  | _, _ => None
  end.

Definition operatorOf (token : string) : option Operator :=
  if String.eqb token "+" then Some Plus
  else if String.eqb token "-" then Some Minus
  else if String.eqb token "*" then Some Times
  else if String.eqb token "/" then Some Divide
  else None.

Definition parenOf (token : string) : option Paren :=
  if String.eqb token "(" then Some Open
  else if String.eqb token ")" then Some Close
  else None.

(** The [if / else if] chain of the second loop: the terms pushed for one
    token, [None] for [return null]. *)
Definition classify (token : string) : option (list ParsedTerm) :=
  if Lex.isDiceToken token then
    match parseDice token with
    | Some (count, sides) => Some [DiceTerm count sides]
    | None => None
    end
  else if Lex.isNumberToken token then
    Some [NumberTerm (Lex.parseFloat token)]
  else match operatorOf token with
  | Some o => Some [OperatorTerm o]
  | None =>
  match parenOf token with
  | Some p => Some [ParenthesisTerm p]
  | None =>
  if Lex.isNegDiceToken token then
    match parseDice (Lex.drop 1 token) with
    | Some (count, sides) =>
        Some [NumberTerm (-1 # 1); OperatorTerm Times; DiceTerm count sides]
    | None => None
    end
  else None
  end end.

(** The second loop of [tokenizeFormula] and the final balance test. *)
Fixpoint parseTokens (tokens : list string) (openParens : Z)
         (parsedTokens : list ParsedTerm) : option (list ParsedTerm) :=
  match tokens with
  | [] => if (openParens =? 0)%Z then Some parsedTokens else None
  | token :: rest =>
      let openParens :=
        if String.eqb token "(" then openParens + 1
        else if String.eqb token ")" then openParens - 1
        else openParens in
      if (openParens <? 0)%Z then None
      else match classify token with
           | Some ts => parseTokens rest openParens (parsedTokens ++ ts)
           | None => None
           end
  end.

Definition tokenizeFormula (formula : string) : option (list ParsedTerm) :=
  let cleanFormula := Lex.clean formula in
  if String.eqb cleanFormula EmptyString then Some []
  else parseTokens (foldUnary (Lex.matchAll cleanFormula)) 0 [].

(** [tokenizeFormula] never throws, so the [catch] of [parseDiceFormula] is
    never taken and [if (!tokens) return null] forwards [null]. *)
Definition parseDiceFormula (formula : string) : option (list ParsedTerm) :=
  match tokenizeFormula formula with
  | Some tokens => Some tokens
  | None => None
  end.

Local Close Scope string_scope.

(* ================================================================== *)
(** ** Shunting-yard evaluation ([evaluate])

    [evaluate] is one loop used in two ways: with numbers on the value stack
    (modes ['min'], ['max'], ['avg'], ['roll']) and with distributions
    (mode ['dist']).  The loop is written once here, over the type [V] of
    stack values; [St] is the state that resolving a term may read and
    advance (the random source in mode ['roll'], nothing otherwise). *)

(** [precedence = {'+': 1, '-': 1, '*': 2, '/': 2}] *)
Definition precedence (op : Operator) : Z :=
  match op with
  | Plus | Minus => 1
  | Times | Divide => 2
  end.

(** An entry of the [ops] stack: an operator or ['(']. *)
Inductive OpsEntry :=
| OpSym (op : Operator)
| OpenSym.

Definition mismatched : string := "Mismatched parentheses".

Section Evaluator.

Context {V St : Type}.
(** [resolveTerm] *)
Variable resolve : CalculationTerm -> St -> V * St.
(** [applyOp(op, b, a, evaluationMode)]; [None] is [undefined], the
    result of [pop] on an empty array. *)
Variable apply : Operator -> option V -> option V -> V.
(** The value returned when there is nothing to return:
    [mode === 'dist' ? new Map([[0,1]]) : 0]. *)
Variable default : V.

(** [values.pop()] *)
Definition pop (values : list V) : option V * list V :=
  match values with
  | v :: rest => (Some v, rest)
  | [] => (None, [])
  end.

(** [const b = values.pop(); const a = values.pop();
     values.push(applyOp(op, b, a, evaluationMode));] *)
Definition reduce (op : Operator) (values : list V) : list V :=
  let '(b, values) := pop values in
  let '(a, values) := pop values in
  apply op b a :: values.

(** The [')'] branch: apply operators down to the nearest ['('], which is
    removed; an exhausted stack throws. *)
Fixpoint closeParen (values : list V) (ops : list OpsEntry)
  : result (list V * list OpsEntry) :=
  match ops with
  | [] => Throw mismatched
  | OpenSym :: ops' => Ok (values, ops')
  | OpSym op :: ops' => closeParen (reduce op values) ops'
  end.

(** The operator branch: apply the operators on top of the stack whose
    precedence is at least that of [tok], then push [tok]. *)
Fixpoint pushOperator (tok : Operator) (values : list V) (ops : list OpsEntry)
  : list V * list OpsEntry :=
  match ops with
  | OpSym op :: ops' =>
      if precedence tok <=? precedence op
      then pushOperator tok (reduce op values) ops'
      else (values, OpSym tok :: ops)
  | _ => (values, OpSym tok :: ops)
  end.

(** The [for (const token of tokens)] loop. *)
Fixpoint processTokens (tokens : list ParsedTerm) (values : list V)
         (ops : list OpsEntry) (st : St)
  : result (list V * list OpsEntry * St) :=
  match tokens with
  | [] => Ok (values, ops, st)
  | token :: rest =>
      match token with
      | NumberTerm value =>
          let '(v, st) := resolve (CNumber value) st in
          processTokens rest (v :: values) ops st
      | DiceTerm count sides =>
          let '(v, st) := resolve (CDice count sides) st in
          processTokens rest (v :: values) ops st
      | ParenthesisTerm Open => processTokens rest values (OpenSym :: ops) st
      | ParenthesisTerm Close =>
          match closeParen values ops with
          | Ok (values, ops) => processTokens rest values ops st
          | Throw msg => Throw msg
          end
      | OperatorTerm tok =>
          let '(values, ops) := pushOperator tok values ops in
          processTokens rest values ops st
      end
  end.

(** The final [while (ops.length > 0)] loop. *)
Fixpoint drain (values : list V) (ops : list OpsEntry) : result (list V) :=
  match ops with
  | [] => Ok values
  | OpenSym :: _ => Throw mismatched
  | OpSym op :: ops' => drain (reduce op values) ops'
  end.

(** The value stack after both loops. *)
Definition finalStack (tokens : list ParsedTerm) (st : St)
  : result (list V * St) :=
  match processTokens tokens [] [] st with
  | Ok (values, ops, st) =>
      match drain values ops with
      | Ok values => Ok (values, st)
      | Throw msg => Throw msg
      end
  | Throw msg => Throw msg
  end.

(** [if (values.length !== 1) return values.length > 0 ?
     values[values.length - 1] : default; return values[0];] *)
Definition pick (values : list V) : V :=
  match values with
  | [v] => v
  | [] => default
  | top :: _ => top
  end.

Definition evaluateWith (tokens : list ParsedTerm) (st : St) : result (V * St) :=
  match tokens with
  | [] => Ok (default, st)
  | _ =>
      match finalStack tokens st with
      | Ok (values, st) => Ok (pick values, st)
      | Throw msg => Throw msg
      end
  end.

End Evaluator.

(* ------------------------------------------------------------------ *)
(** *** Numbers on the stack *)

(** The infinity with the sign of [q], NaN for zero. *)
Definition infinityLike (q : Q) : num :=
  match (q ?= 0)%Q with
  | Gt => PosInf
  | Lt => NegInf
  | Eq => NaN
  end.

(** [-a] on an infinity. *)
Definition flipInfinity (a : num) : num :=
  match a with
  | PosInf => NegInf
  | NegInf => PosInf
  | other => other
  end.

(** [a + b] *)
Definition nadd (a b : num) : num :=
  match a, b with
  | Fin x, Fin y => Fin (x + y)
  | NaN, _ | _, NaN => NaN
  | PosInf, NegInf | NegInf, PosInf => NaN
  | PosInf, _ | _, PosInf => PosInf
  | NegInf, _ | _, NegInf => NegInf
  end.

(** [a - b] *)
Definition nsub (a b : num) : num :=
  match a, b with
  | Fin x, Fin y => Fin (x - y)
  | NaN, _ | _, NaN => NaN
  | PosInf, PosInf | NegInf, NegInf => NaN
  | PosInf, _ | _, NegInf => PosInf
  | NegInf, _ | _, PosInf => NegInf
  end.

(** [a * b]: an infinity times zero is NaN. *)
Definition nmul (a b : num) : num :=
  match a, b with
  | Fin x, Fin y => Fin (x * y)
  | NaN, _ | _, NaN => NaN
  | PosInf, Fin y | Fin y, PosInf => infinityLike y
  | NegInf, Fin y | Fin y, NegInf => flipInfinity (infinityLike y)
  | PosInf, PosInf | NegInf, NegInf => PosInf
  | PosInf, NegInf | NegInf, PosInf => NegInf
  end.

(** [a / b] as JavaScript computes it: a quotient by zero is an infinity
    with the sign of the dividend, and NaN for [0 / 0]. *)
Definition ndiv (a b : num) : num :=
  match a, b with
  | Fin x, Fin y => if Qeq_bool y 0 then infinityLike x else Fin (x / y)
  | NaN, _ | _, NaN => NaN
  | Fin _, (PosInf | NegInf) => Fin 0
  | PosInf, Fin y => if Qle_bool 0 y then PosInf else NegInf
  | NegInf, Fin y => if Qle_bool 0 y then NegInf else PosInf
  | (PosInf | NegInf), (PosInf | NegInf) => NaN
  end.

(** [b === 0] *)
Definition isZero (b : num) : bool :=
  match b with
  | Fin y => Qeq_bool y 0
  | _ => false
  end.

(** An arithmetic operand read off the stack: [undefined] converts to NaN. *)
Definition toNumber (x : option num) : num :=
  match x with
  | Some n => n
  | None => NaN
  end.

(** [applyOp(op, b, a, 'value')] *)
Definition applyOp (op : Operator) (b a : option num) : num :=
  let a := toNumber a in
  let b := toNumber b in
  match op with
  | Plus => nadd a b
  | Minus => nsub a b
  | Times => nmul a b
  | Divide => if isZero b then NaN else ndiv a b
  end.

(** The three deterministic modes. *)
Inductive Mode := Min | Max | Avg.

(** [resolveTerm] in modes ['min'], ['max'], ['avg']. *)
Definition resolveTerm (mode : Mode) (term : CalculationTerm) : num :=
  match term with
  | CNumber value => Fin value
  | CDice count sides =>
      match mode with
      | Min => Fin (inject_Z count * 1)
      | Max => Fin (inject_Z count * inject_Z sides)
      | Avg => Fin (inject_Z count * (inject_Z sides + 1) / 2)
      end
  end.

(** [evaluate(tokens, mode)] for [mode] in ['min'], ['max'], ['avg']. *)
Definition evaluate (tokens : list ParsedTerm) (mode : Mode) : result num :=
  match evaluateWith (fun term (st : unit) => (resolveTerm mode term, st))
                     applyOp (Fin 0) tokens tt with
  | Ok (v, _) => Ok v
  | Throw msg => Throw msg
  end.

(** [Math.floor] *)
Definition floor (x : num) : num :=
  match x with
  | Fin q => Fin (inject_Z (Qfloor q))
  | other => other
  end.

Record Stats := mkStats { min : num; max : num; avg : num; avgFloored : num }.

Definition zeroStats : Stats := mkStats (Fin 0) (Fin 0) (Fin 0) (Fin 0).

(** [calculateStats]: the three evaluations run inside one [try]; any throw
    gives the all-zero record. *)
Definition calculateStats (terms : list ParsedTerm) : Stats :=
  match terms with
  | [] => zeroStats
  | _ =>
      match evaluate terms Min, evaluate terms Max, evaluate terms Avg with
      | Ok min, Ok max, Ok avg => mkStats min max avg (floor avg)
      | _, _, _ => zeroStats
      end
  end.

(* ------------------------------------------------------------------ *)
(** *** Mode ['roll'] and [simulateRoll] *)

Module RollDetail.
Record t := mk { value : Z; sides : Z; sign : Z }.
End RollDetail.

Record RollResult := mkRollResult
  { total : num; details : list RollDetail.t; modifier : Q }.

Definition emptyRoll : RollResult := mkRollResult (Fin 0) [] 0.

(** [terms.filter(t => t.type === 'number').reduce((sum, t) => sum + t.value, 0)] *)
Definition sumNumbers (terms : list ParsedTerm) : Q :=
  fold_left (fun sum t =>
               match t with
               | NumberTerm value => (sum + value)%Q
               | _ => sum
               end) terms 0%Q.

Section Random.

(** [random g] is the value of the [g]-th call of [Math.random()]. *)
Variable random : nat -> Q.

(** [Math.floor(Math.random() * sides) + 1] *)
Definition rollDie (sides : Z) (g : nat) : Z * nat :=
  (Qfloor (random g * inject_Z sides) + 1, S g).

(** [for (let i = 0; i < term.count; i++) sum += roll], [n] rounds left. *)
Fixpoint rollSum (n : nat) (sides : Z) (sum : Z) (g : nat) : Z * nat :=
  match n with
  | O => (sum, g)
  | S n' =>
      let '(roll, g) := rollDie sides g in
      rollSum n' sides (sum + roll) g
  end.

(** [resolveTerm] in mode ['roll']. *)
Definition resolveTermRoll (term : CalculationTerm) (g : nat) : num * nat :=
  match term with
  | CNumber value => (Fin value, g)
  | CDice count sides =>
      let '(sum, g) := rollSum (Z.to_nat count) sides 0 g in
      (Fin (inject_Z sum), g)
  end.

(** [evaluate(tokens, 'roll')] *)
Definition evaluateRoll (tokens : list ParsedTerm) (g : nat) : result (num * nat) :=
  evaluateWith resolveTermRoll applyOp (Fin 0) tokens g.

(** The loop in the [map] callback of [simulateRoll]; every roll is also
    pushed on [rollDetails]. *)
Fixpoint rollEach (n : nat) (sides : Z) (totalRoll : Z)
         (rollDetails : list RollDetail.t) (g : nat)
  : Z * list RollDetail.t * nat :=
  match n with
  | O => (totalRoll, rollDetails, g)
  | S n' =>
      let '(roll, g) := rollDie sides g in
      rollEach n' sides (totalRoll + roll)
               (rollDetails ++ [RollDetail.mk roll sides 1]) g
  end.

(** [terms.map(term => ...)] *)
Fixpoint rollTerms (terms : list ParsedTerm) (rollDetails : list RollDetail.t)
         (g : nat) : list ParsedTerm * list RollDetail.t * nat :=
  match terms with
  | [] => ([], rollDetails, g)
  | DiceTerm count sides :: rest =>
      let '(totalRoll, rollDetails, g) :=
        rollEach (Z.to_nat count) sides 0 rollDetails g in
      let '(rest, rollDetails, g) := rollTerms rest rollDetails g in
      (NumberTerm (inject_Z totalRoll) :: rest, rollDetails, g)
  | term :: rest =>
      let '(rest, rollDetails, g) := rollTerms rest rollDetails g in
      (term :: rest, rollDetails, g)
  end.

(** [simulateRoll]; the second component is the advanced random cursor. *)
Definition simulateRoll (terms : list ParsedTerm) (g : nat) : RollResult * nat :=
  match terms with
  | [] => (emptyRoll, g)
  | _ =>
      let '(rolledTerms, rollDetails, g) := rollTerms terms [] g in
      match evaluateRoll rolledTerms g with
      | Ok (total, g) => (mkRollResult total rollDetails (sumNumbers terms), g)
      | Throw _ => (emptyRoll, g)
      end
  end.

End Random.

(* ================================================================== *)
(** ** Distributions *)

(** [Map<number, number>]: outcome value to multiplicity, in insertion order. *)
Definition Distribution := list (Q * Z).

Module Dist.

(** [m.get(k)] *)
Fixpoint get (k : Q) (m : Distribution) : option Z :=
  match m with
  | [] => None
  | (k', v) :: m' => if Qeq_bool k k' then Some v else get k m'
  end.

(** [m.set(k, v)]: an existing key keeps its place. *)
Fixpoint set (k : Q) (v : Z) (m : Distribution) : Distribution :=
  match m with
  | [] => [(k, v)]
  | (k', v') :: m' =>
      if Qeq_bool k k' then (k', v) :: m' else (k', v') :: set k v m'
  end.

(** [m.set(k, (m.get(k) || 0) + c)] *)
Definition accumulate (k : Q) (c : Z) (m : Distribution) : Distribution :=
  let old := match get k m with
             | Some v => v
             | None => 0
             end in
  set k (old + c) m.

End Dist.

(** The faces [1 .. sides] in the order of [for (let s = 1; s <= sides; s++)]. *)
Definition faces (sides : Z) : list Z :=
  map Z.of_nat (seq 1 (Z.to_nat sides)).

(** One round of the outer loop of [getTermDistribution]. *)
Definition addDie (sides : Z) (currentDist : Distribution) : Distribution :=
  fold_left
    (fun nextDist s =>
       fold_left
         (fun nextDist '(sum, count) =>
            Dist.accumulate (sum + inject_Z s)%Q count nextDist)
         currentDist nextDist)
    (faces sides) [].

Definition getTermDistribution (term : CalculationTerm) : Distribution :=
  match term with
  | CNumber value => Dist.set value 1 []
  | CDice count sides =>
      Nat.iter (Z.to_nat count) (addDie sides) [(0%Q, 1)]
  end.

(** [Math.round(newVal * 1e9) / 1e9] read in exact arithmetic;
    [Math.round x] is [floor (x + 1/2)].  The rounding errors of the two
    floating-point operations are not modelled. *)
Definition round9 (newVal : Q) : Q :=
  (inject_Z (Qfloor (newVal * inject_Z (10 ^ 9) + (1 # 2))) / inject_Z (10 ^ 9))%Q.

(** The [switch] of [combineDistributions]: [newVal], with [None] for NaN.
    The quotient is only taken by a divisor that is not zero, so [newVal]
    is a rational or NaN. *)
Definition combineValues (op : Operator) (val1 val2 : Q) : option Q :=
  match op with
  | Plus => Some (val1 + val2)%Q
  | Minus => Some (val1 - val2)%Q
  | Times => Some (val1 * val2)%Q
  | Divide => if Qeq_bool val2 0 then None else Some (val1 / val2)%Q
  end.

(** The body of the inner loop of [combineDistributions]. *)
Definition combineStep (op : Operator) (val1 : Q) (count1 : Z)
           (newDist : Distribution) (e2 : Q * Z) : Distribution :=
  let '(val2, count2) := e2 in
  match combineValues op val1 val2 with
  | Some newVal => Dist.accumulate (round9 newVal) (count1 * count2) newDist
  | None => newDist
  end.

(** [combineDistributions(dist1, dist2, op)]; [None] is [undefined]. *)
Definition combineDistributions (dist1 dist2 : option Distribution)
           (op : Operator) : Distribution :=
  match dist1, dist2 with
  | Some dist1, Some dist2 =>
      fold_left
        (fun newDist '(val1, count1) =>
           fold_left (combineStep op val1 count1) dist2 newDist)
        dist1 []
  | _, _ => []
  end.

(** [applyOp(op, b, a, 'dist')] *)
Definition applyOpDist (op : Operator) (b a : option Distribution) : Distribution :=
  combineDistributions a b op.

(** [evaluate(tokens, 'dist')] *)
Definition evaluateDist (tokens : list ParsedTerm) : result Distribution :=
  match evaluateWith (fun term (st : unit) => (getTermDistribution term, st))
                     applyOpDist [(0%Q, 1)] tokens tt with
  | Ok (d, _) => Ok d
  | Throw msg => Throw msg
  end.

Module Outcome.
Record t := mk { value : Q; probability : Q }.
End Outcome.

(** [terms.reduce((sum, term) => term.type === 'dice' ? sum + term.count : sum, 0)] *)
Definition totalDice (terms : list ParsedTerm) : Z :=
  fold_left (fun sum term =>
               match term with
               | DiceTerm count _ => sum + count
               | _ => sum
               end) terms 0.

(** [for (const count of finalDistribution.values()) totalCombinations += count] *)
Definition totalCombinations (d : Distribution) : Z :=
  fold_left (fun total e => total + snd e) d 0.

(** A stable sort with comparator [(a, b) => a.value - b.value]. *)
Fixpoint insertOutcome (x : Outcome.t) (l : list Outcome.t) : list Outcome.t :=
  match l with
  | [] => [x]
  | y :: l' =>
      if Qle_bool (Outcome.value x) (Outcome.value y)
      then x :: l
      else y :: insertOutcome x l'
  end.

Definition sortByValue (l : list Outcome.t) : list Outcome.t :=
  fold_right insertOutcome [] l.

(** [Array.from(entries).map(..).filter(item => item.probability > 0)] *)
Definition normalize (d : Distribution) (total : Z) : list Outcome.t :=
  filter (fun item => negb (Qle_bool (Outcome.probability item) 0))
         (map (fun '(value, count) =>
                 Outcome.mk value (inject_Z count / inject_Z total)) d).

Definition calculateProbabilityDistribution (terms : list ParsedTerm)
  : list Outcome.t :=
  match terms with
  | [] => []
  | _ =>
      if 8 <? totalDice terms then []
      else match evaluateDist terms with
           | Ok finalDistribution =>
               let total := totalCombinations finalDistribution in
               if total =? 0 then []
               else sortByValue (normalize finalDistribution total)
           | Throw _ => []
           end
  end.

(* ================================================================== *)
(** ** The earlier tokenizer kept in [src/lib/dice-utils.ts]

    The revision without parentheses: it tracks [expectOperand] and strips
    either sign from an operand token. *)

Module Legacy.

(** [/(\d+d\d+|\d+\.\d+|\d+|[+\-*/])/g] *)
Definition matchAll (s : string) : list string :=
  Lex.scan ["+"; "-"; "*"; "/"]%char s 0.

(** [token.startsWith(c)] *)
Definition startsWith (c : ascii) (token : string) : bool :=
  match token with
  | String c' _ => Ascii.eqb c' c
  | EmptyString => false
  end.

(** [s.includes('d')] *)
Fixpoint includes (c : ascii) (s : string) : bool :=
  match s with
  | String c' s' => Ascii.eqb c' c || includes c s'
  | EmptyString => false
  end.

(** The operand branch of the loop. *)
Definition operand (token : string) : option (list ParsedTerm) :=
  let sign := if startsWith "-"%char token then (-1)%Z else 1%Z in
  let unsignedToken :=
    if startsWith "-"%char token || startsWith "+"%char token
    then Lex.drop 1 token else token in
  if includes "d"%char unsignedToken then
    match parseDice unsignedToken with
    | Some (count, sides) =>
        Some ((if (sign =? -1)%Z
               then [NumberTerm (-1 # 1); OperatorTerm Times] else [])
              ++ [DiceTerm count sides])
    | None => None
    end
  else
    match Lex.digitsPrefix unsignedToken with
    | O => None
    | _ => Some [NumberTerm (Lex.parseUnsigned unsignedToken * inject_Z sign)%Q]
    end.

(** The loop; [token] is [tokens[i]] as read, [rest] is [tokens[i+1 ..]]. *)
Fixpoint loop (token : string) (rest : list string) (expectOperand : bool)
         (parsedTokens : list ParsedTerm) : option (list ParsedTerm) :=
  let finish expectOperand parsedTokens :=
    if expectOperand && negb (List.length parsedTokens =? 0)%nat
    then None else Some parsedTokens in
  match operatorOf token with
  | Some op =>
      let folded :=
        match rest with
        | nextToken :: _ =>
            expectOperand && isSign token && Lex.startsWithDigit nextToken
        | [] => false
        end in
      match rest with
      | nextToken :: rest' =>
          if folded then loop (token ++ nextToken)%string rest' expectOperand parsedTokens
          else if expectOperand then None
          else loop nextToken rest' true (parsedTokens ++ [OperatorTerm op])
      | [] =>
          if expectOperand then None
          else finish true (parsedTokens ++ [OperatorTerm op])
      end
  | None =>
      if negb expectOperand then None
      else match operand token with
           | Some ts =>
               match rest with
               | nextToken :: rest' => loop nextToken rest' false (parsedTokens ++ ts)
               | [] => finish false (parsedTokens ++ ts)
               end
           | None => None
           end
  end.

Definition tokenizeFormula (formula : string) : option (list ParsedTerm) :=
  let cleanFormula := Lex.clean formula in
  if String.eqb cleanFormula EmptyString then Some []
  else match matchAll cleanFormula with
       | [] => Some []
       | token :: rest => loop token rest true []
       end.

End Legacy.

(* ================================================================== *)
(** ** The values the page derives from the formula ([DiceRoller])

    The component keeps the formula text and derives, in [useMemo] blocks
    that are functions of the text alone, the parsed formula with its error
    flag, the statistics and the data of the probability graph. *)

Module Page.

(** [s.trimStart()] *)
Fixpoint trimStart (s : string) : string :=
  match s with
  | String c rest => if Lex.isSpace c then trimStart rest else s
  | EmptyString => EmptyString
  end.

(** [s.trimEnd()] *)
Fixpoint trimEnd (s : string) : string :=
  match s with
  | EmptyString => EmptyString
  | String c rest =>
      match trimEnd rest with
      | EmptyString => if Lex.isSpace c then EmptyString else String c EmptyString
      | rest' => String c rest'
      end
  end.

(** [s.trim()] *)
Definition trim (s : string) : string := trimEnd (trimStart s).

(** [const parsed = parseDiceFormula(formula)] *)
Definition parsedFormula (formula : string) : option (list ParsedTerm) :=
  parseDiceFormula formula.

(** [!parsed && formula.trim() !== '' ? 'Invalid dice formula' : null],
    as the flag "an error message is set". *)
Definition error (formula : string) : bool :=
  match parsedFormula formula with
  | None => negb (String.eqb (trim formula) EmptyString)
  | Some _ => false
  end.

(** [if (!parsedFormula || error) return zeros; return calculateStats(parsedFormula)] *)
Definition stats (formula : string) : Stats :=
  match parsedFormula formula with
  | None => zeroStats
  | Some terms => if error formula then zeroStats else calculateStats terms
  end.

(** [x > 1000] on a number; false for NaN. *)
Definition above1000 (x : num) : bool :=
  match x with
  | Fin q => negb (Qle_bool q 1000)
  | PosInf => true
  | NegInf | NaN => false
  end.

(** The graph data: nothing for a rejected formula, nothing when the
    maximum exceeds 1000, the distribution otherwise. *)
Definition probabilityData (formula : string) : list Outcome.t :=
  match parsedFormula formula with
  | None => []
  | Some terms =>
      if error formula then []
      else if negb (List.length terms =? 0)%nat && above1000 (max (stats formula))
           then []
           else calculateProbabilityDistribution terms
  end.

End Page.

(* ================================================================== *)
(** ** Vocabulary of the statements *)

(** The running parenthesis count of the tokenizer, replayed on a term
    sequence: never negative, zero at the end. *)
Fixpoint parensBalancedFrom (depth : Z) (terms : list ParsedTerm) : bool :=
  match terms with
  | [] => depth =? 0
  | ParenthesisTerm Open :: rest => parensBalancedFrom (depth + 1) rest
  | ParenthesisTerm Close :: rest =>
      if depth - 1 <? 0 then false else parensBalancedFrom (depth - 1) rest
  | _ :: rest => parensBalancedFrom depth rest
  end.

Definition parensBalanced (terms : list ParsedTerm) : bool :=
  parensBalancedFrom 0 terms.

(** Number of ['('] entries on the operator stack. *)
Fixpoint openCount (ops : list OpsEntry) : Z :=
  match ops with
  | [] => 0
  | OpenSym :: ops' => openCount ops' + 1
  | OpSym _ :: ops' => openCount ops'
  end.

Definition notParen (t : ParsedTerm) : Prop :=
  match t with
  | ParenthesisTerm _ => False
  | _ => True
  end.

(** A resolved operand as a term of the sequence. *)
Definition termOf (t : CalculationTerm) : ParsedTerm :=
  match t with
  | CDice count sides => DiceTerm count sides
  | CNumber value => NumberTerm value
  end.

(** [a op b] on two numbers present on the stack. *)
Definition binop (op : Operator) (a b : num) : num :=
  applyOp op (Some b) (Some a).

(** The value stack of [evaluate(tokens, 'dist')] when both loops are over. *)
Definition distStack (tokens : list ParsedTerm) : result (list Distribution) :=
  match finalStack (fun term (st : unit) => (getTermDistribution term, st))
                   applyOpDist tokens tt with
  | Ok (values, _) => Ok values
  | Throw msg => Throw msg
  end.

(** Sum of the probabilities of a result. *)
Definition sumProbabilities (l : list Outcome.t) : Q :=
  fold_right (fun item acc => (Outcome.probability item + acc)%Q) 0%Q l.

(** Numeric equality of two result entries. *)
Definition outcome_eq (a b : Outcome.t) : Prop :=
  (Outcome.value a == Outcome.value b)%Q
  /\ (Outcome.probability a == Outcome.probability b)%Q.

(** The order of the result: ascending outcome values. *)
Definition byValue (a b : Outcome.t) : Prop :=
  (Outcome.value a <= Outcome.value b)%Q.

(** Every multiplicity of a distribution is positive. *)
Definition positiveCounts (d : Distribution) : Prop :=
  Forall (fun e => 0 < snd e) d.

(** [item.value] is not zero. *)
Definition nonZeroKey (e : Q * Z) : bool := negb (Qeq_bool (fst e) 0).

(** No two entries of a map have the same key. *)
Definition distinctKeys (d : Distribution) : Prop :=
  ForallOrdPairs (fun a b => Qeq_bool (fst a) (fst b) = false) d.

(** The strict order of the result: no value occurs twice. *)
Definition strictlyByValue (a b : Outcome.t) : Prop :=
  (Outcome.value a < Outcome.value b)%Q.

(** Every key of a map lies between two bounds. *)
Definition keysWithin (lo hi : Q) (d : Distribution) : Prop :=
  Forall (fun e => (lo <= fst e /\ fst e <= hi)%Q) d.

(** The value stored under a key, 0 when there is none. *)
Definition countOf (k : Q) (m : Distribution) : Z :=
  match Dist.get k m with
  | Some v => v
  | None => 0
  end.

(** The data-model invariant of a term: a dice term has at least one die
    and at least one face. *)
Definition validTerm (t : ParsedTerm) : Prop :=
  match t with
  | DiceTerm count sides => 1 <= count /\ 1 <= sides
  | _ => True
  end.

(** A recorded die roll shows a face of its die and carries sign 1. *)
Definition validDetail (d : RollDetail.t) : Prop :=
  1 <= RollDetail.value d <= RollDetail.sides d /\ RollDetail.sign d = 1.

(** [Math.random()] returns a number in [[0, 1)]. *)
Definition unitInterval (random : nat -> Q) : Prop :=
  forall i, (0 <= random i)%Q /\ (random i < 1)%Q.

(** A formula [t0 op1 t1 op2 t2 ..] without parentheses. *)
Definition chainTerms (t0 : CalculationTerm)
           (pairs : list (Operator * CalculationTerm)) : list ParsedTerm :=
  termOf t0 :: flat_map (fun p => [OperatorTerm (fst p); termOf (snd p)]) pairs.

(** The operations of a chain applied from left to right. *)
Definition leftToRight (mode : Mode) (t0 : CalculationTerm)
           (pairs : list (Operator * CalculationTerm)) : num :=
  fold_left (fun acc p => binop (fst p) acc (resolveTerm mode (snd p)))
            pairs (resolveTerm mode t0).

(** The sequence holds no dice term. *)
Definition noDice (terms : list ParsedTerm) : bool :=
  forallb (fun t => match t with
                    | DiceTerm _ _ => false
                    | _ => true
                    end) terms.

(** Resolution of the terms of a sequence without dice: a number term gives
    [number value], and no state is read. *)
Definition numbersOnly {V : Type} (number : Q -> V) (default : V)
           (term : CalculationTerm) (st : unit) : V * unit :=
  match term with
  | CNumber value => (number value, st)
  | CDice _ _ => (default, st)
  end.

(** The infix grammar: operands and operators alternate, a formula starts
    and ends with an operand, ['('] stands where an operand may start, [')']
    where one has ended, and the parentheses balance.  [expectOperand] tells
    whether an operand is due, [depth] counts the open parentheses. *)
Fixpoint wellFormedFrom (expectOperand : bool) (depth : Z)
         (terms : list ParsedTerm) : bool :=
  match terms with
  | [] => negb expectOperand && (depth =? 0)
  | DiceTerm _ _ :: rest | NumberTerm _ :: rest =>
      expectOperand && wellFormedFrom false depth rest
  | OperatorTerm _ :: rest =>
      negb expectOperand && wellFormedFrom true depth rest
  | ParenthesisTerm Open :: rest =>
      expectOperand && wellFormedFrom true (depth + 1) rest
  | ParenthesisTerm Close :: rest =>
      negb expectOperand && negb (depth - 1 <? 0)
      && wellFormedFrom false (depth - 1) rest
  end.

Definition wellFormed (terms : list ParsedTerm) : bool :=
  wellFormedFrom true 0 terms.

(** Number of operators on the operator stack. *)
Fixpoint opCount (ops : list OpsEntry) : nat :=
  match ops with
  | [] => 0
  | OpSym _ :: ops' => S (opCount ops')
  | OpenSym :: ops' => opCount ops'
  end.

(** The sequence holds no division. *)
Definition noDivision (terms : list ParsedTerm) : bool :=
  forallb (fun t => match t with
                    | OperatorTerm Divide => false
                    | _ => true
                    end) terms.

(** The operator stack holds no division. *)
Definition noDivisionOnStack (ops : list OpsEntry) : bool :=
  forallb (fun e => match e with
                    | OpSym Divide => false
                    | _ => true
                    end) ops.

(** Product of the total multiplicities of the maps on the stack. *)
Definition stackTotal (values : list Distribution) : Z :=
  fold_right (fun d acc => totalCombinations d * acc) 1 values.

(** Number of ways the dice of a formula can fall: the product of
    [sides ^ count] over its dice terms. *)
Definition diceOutcomes (terms : list ParsedTerm) : Z :=
  fold_right (fun t acc =>
                match t with
                | DiceTerm count sides => Z.max 0 sides ^ Z.max 0 count * acc
                | _ => acc
                end) 1 terms.

(** [resolveTerm] in mode ['dist']. *)
Definition distResolve (term : CalculationTerm) (st : unit) : Distribution * unit :=
  (getTermDistribution term, st).

(** Order on finite numbers. *)
Definition num_le (a b : num) : Prop :=
  match a, b with
  | Fin x, Fin y => (x <= y)%Q
  | _, _ => False
  end.

Definition num_lt (a b : num) : Prop :=
  match a, b with
  | Fin x, Fin y => (x < y)%Q
  | _, _ => False
  end.













(* ================================================================== *)
(** * Properties *)

(** ** The evaluator never throws on balanced parentheses *)

Lemma openCount_nonneg (ops : list OpsEntry) : 0 <= openCount ops.
Proof. induction ops as [|[op|] ops IH]; simpl; lia. Qed.

Section EvaluatorFacts.

Context {V St : Type}.
Variable resolve : CalculationTerm -> St -> V * St.
Variable apply : Operator -> option V -> option V -> V.
Variable default : V.

Lemma closeParen_ok (ops : list OpsEntry) :
  forall values, 0 < openCount ops ->
  exists values' ops',
    closeParen apply values ops = Ok (values', ops')
    /\ openCount ops' = openCount ops - 1.
Proof.
  induction ops as [|[op|] ops IH]; simpl; intros values Hpos.
  - lia.
  - destruct (IH (reduce apply op values) Hpos) as (v' & o' & -> & Hc).
    now exists v', o'.
  - exists values, ops. split; [reflexivity | lia].
Qed.

Lemma pushOperator_openCount (tok : Operator) (ops : list OpsEntry) :
  forall values,
    openCount (snd (pushOperator apply tok values ops)) = openCount ops.
Proof.
  induction ops as [|[op|] ops IH]; simpl; intros values; try reflexivity.
  destruct (precedence tok <=? precedence op); [apply IH | reflexivity].
Qed.

Lemma processTokens_ok (tokens : list ParsedTerm) :
  forall values ops st,
    parensBalancedFrom (openCount ops) tokens = true ->
    exists values' ops' st',
      processTokens resolve apply tokens values ops st = Ok (values', ops', st')
      /\ openCount ops' = 0.
Proof.
  induction tokens as [|token rest IH]; simpl; intros values ops st Hbal.
  - exists values, ops, st. split; [reflexivity | now apply Z.eqb_eq].
  - destruct token as [count sides|value|tok|[|]].
    + destruct (resolve (CDice count sides) st) as [v st1]. now apply IH.
    + destruct (resolve (CNumber value) st) as [v st1]. now apply IH.
    + pose proof (pushOperator_openCount tok ops values) as Hc.
      destruct (pushOperator apply tok values ops) as [values1 ops1].
      simpl in Hc. apply IH. now rewrite Hc.
    + now apply IH.
    + destruct (openCount ops - 1 <? 0) eqn:Hneg; [discriminate|].
      apply Z.ltb_ge in Hneg.
      destruct (closeParen_ok ops values) as (v1 & o1 & -> & Hc); [lia|].
      apply IH. now rewrite Hc.
Qed.

Lemma drain_ok (ops : list OpsEntry) :
  forall values, openCount ops = 0 ->
  exists values', drain apply values ops = Ok values'.
Proof.
  induction ops as [|[op|] ops IH]; simpl; intros values Hc.
  - now exists values.
  - now apply IH.
  - pose proof (openCount_nonneg ops). lia.
Qed.

(** Balanced parentheses are enough for [evaluate] to return. *)
Lemma evaluateWith_ok (tokens : list ParsedTerm) (st : St) :
  parensBalanced tokens = true ->
  exists v st', evaluateWith resolve apply default tokens st = Ok (v, st').
Proof.
  intros Hbal. unfold evaluateWith, finalStack.
  destruct tokens as [|token rest]; [now exists default, st|].
  destruct (processTokens_ok (token :: rest) [] [] st Hbal)
    as (values & ops & st' & -> & Hc).
  destruct (drain_ok ops values Hc) as (values' & ->).
  now exists (pick default values'), st'.
Qed.

(** *** Invariants of the value stack *)

Variable P : V -> Prop.
Hypothesis resolve_P : forall term st, P (fst (resolve term st)).
Hypothesis apply_P :
  forall op b a,
    (forall v, b = Some v -> P v) -> (forall v, a = Some v -> P v) ->
    P (apply op b a).
Hypothesis default_P : P default.

Lemma reduce_P (op : Operator) (values : list V) :
  Forall P values -> Forall P (reduce apply op values).
Proof.
  intros H. unfold reduce.
  destruct values as [|b [|a values]]; simpl.
  - constructor; [apply apply_P; intros v; discriminate | constructor].
  - inversion H; subst. constructor; [|constructor].
    apply apply_P; intros v Hv; [now injection Hv as <- | discriminate].
  - inversion H as [|? ? Hb H']; subst. inversion H' as [|? ? Ha H'']; subst.
    constructor; [|assumption].
    apply apply_P; intros v Hv; now injection Hv as <-.
Qed.

Lemma closeParen_P (ops : list OpsEntry) :
  forall values values' ops',
    Forall P values -> closeParen apply values ops = Ok (values', ops') ->
    Forall P values'.
Proof.
  induction ops as [|[op|] ops IH]; simpl; intros values values' ops' H E.
  - discriminate.
  - eapply IH; [|exact E]. now apply reduce_P.
  - now injection E as <- <-.
Qed.

Lemma pushOperator_P (tok : Operator) (ops : list OpsEntry) :
  forall values,
    Forall P values -> Forall P (fst (pushOperator apply tok values ops)).
Proof.
  induction ops as [|[op|] ops IH]; simpl; intros values H; try assumption.
  destruct (precedence tok <=? precedence op); [|assumption].
  apply IH. now apply reduce_P.
Qed.

Lemma processTokens_P (tokens : list ParsedTerm) :
  forall values ops st values' ops' st',
    Forall P values ->
    processTokens resolve apply tokens values ops st = Ok (values', ops', st') ->
    Forall P values'.
Proof.
  induction tokens as [|token rest IH]; simpl;
    intros values ops st values' ops' st' H E.
  - now injection E as <- <- <-.
  - destruct token as [count sides|value|tok|[|]].
    + pose proof (resolve_P (CDice count sides) st) as Hr.
      destruct (resolve (CDice count sides) st) as [v st1].
      eapply IH; [|exact E]. now constructor.
    + pose proof (resolve_P (CNumber value) st) as Hr.
      destruct (resolve (CNumber value) st) as [v st1].
      eapply IH; [|exact E]. now constructor.
    + pose proof (pushOperator_P tok ops values H) as Hp.
      destruct (pushOperator apply tok values ops) as [values1 ops1].
      eapply IH; [|exact E]. exact Hp.
    + eapply IH; [|exact E]. assumption.
    + destruct (closeParen apply values ops) as [[values1 ops1]|msg] eqn:Ec;
        [|discriminate].
      eapply IH; [|exact E]. eapply closeParen_P; eassumption.
Qed.

Lemma drain_P (ops : list OpsEntry) :
  forall values values',
    Forall P values -> drain apply values ops = Ok values' -> Forall P values'.
Proof.
  induction ops as [|[op|] ops IH]; simpl; intros values values' H E.
  - now injection E as <-.
  - eapply IH; [|exact E]. now apply reduce_P.
  - discriminate.
Qed.

Lemma finalStack_P (tokens : list ParsedTerm) (st st' : St) (values : list V) :
  finalStack resolve apply tokens st = Ok (values, st') -> Forall P values.
Proof.
  unfold finalStack. intros E.
  destruct (processTokens resolve apply tokens [] [] st)
    as [[[values1 ops1] st1]|msg] eqn:Ep; [|discriminate].
  destruct (drain apply values1 ops1) as [values2|msg] eqn:Ed; [|discriminate].
  injection E as <- <-.
  eapply drain_P; [|exact Ed]. eapply processTokens_P; [|exact Ep]. constructor.
Qed.

Lemma pick_P (values : list V) : Forall P values -> P (pick default values).
Proof.
  intros H. destruct values as [|v [|w values]]; simpl.
  - exact default_P.
  - now inversion H.
  - now inversion H.
Qed.

Lemma evaluateWith_P (tokens : list ParsedTerm) (st st' : St) (v : V) :
  evaluateWith resolve apply default tokens st = Ok (v, st') -> P v.
Proof.
  unfold evaluateWith. intros E.
  destruct tokens as [|token rest].
  - injection E as <- <-. exact default_P.
  - destruct (finalStack resolve apply (token :: rest) st)
      as [[values st1]|msg] eqn:Ef; [|discriminate].
    injection E as <- <-. apply pick_P. eapply finalStack_P; exact Ef.
Qed.

End EvaluatorFacts.

(** ** The tokenizer only returns balanced sequences *)

Lemma classify_shape (token : string) (ts : list ParsedTerm) :
  classify token = Some ts ->
  (token = "("%string /\ ts = [ParenthesisTerm Open])
  \/ (token = ")"%string /\ ts = [ParenthesisTerm Close])
  \/ (String.eqb token "(" = false /\ String.eqb token ")" = false
      /\ Forall notParen ts).
Proof.
  intros H.
  destruct (String.eqb token "(") eqn:E1.
  { apply String.eqb_eq in E1. subst token. left. split; [reflexivity|].
    vm_compute in H. now injection H as <-. }
  destruct (String.eqb token ")") eqn:E2.
  { apply String.eqb_eq in E2. subst token. right. left. split; [reflexivity|].
    vm_compute in H. now injection H as <-. }
  right. right. repeat split.
  unfold classify, parenOf in H. rewrite E1, E2 in H.
  destruct (Lex.isDiceToken token).
  { destruct (parseDice token) as [[c s]|]; [|discriminate].
    injection H as <-. repeat constructor. }
  destruct (Lex.isNumberToken token).
  { injection H as <-. repeat constructor. }
  destruct (operatorOf token).
  { injection H as <-. repeat constructor. }
  destruct (Lex.isNegDiceToken token); [|discriminate].
  destruct (parseDice (Lex.drop 1 token)) as [[c s]|]; [|discriminate].
  injection H as <-. repeat constructor.
Qed.

Lemma parensBalancedFrom_skip (ts rest : list ParsedTerm) (depth : Z) :
  Forall notParen ts ->
  parensBalancedFrom depth (ts ++ rest) = parensBalancedFrom depth rest.
Proof.
  induction 1 as [|t ts Ht _ IH]; simpl; [reflexivity|].
  destruct t; try exact IH. contradiction.
Qed.

Lemma parseTokens_balanced (tokens : list string) :
  forall openParens parsedTokens out,
    parseTokens tokens openParens parsedTokens = Some out ->
    exists suffix,
      out = parsedTokens ++ suffix
      /\ parensBalancedFrom openParens suffix = true.
Proof.
  induction tokens as [|token rest IH]; simpl; intros d parsed out H.
  - destruct (d =? 0) eqn:E; [|discriminate]. injection H as <-.
    exists []. split; [now rewrite app_nil_r | exact E].
  - destruct (classify token) as [ts|] eqn:Ec.
    2:{ destruct (_ <? 0); discriminate. }
    destruct (classify_shape token ts Ec)
      as [[-> ->]|[[-> ->]|(E1 & E2 & Hts)]].
    + simpl in H. destruct (d + 1 <? 0) eqn:En; [discriminate|].
      destruct (IH _ _ _ H) as (suffix & -> & Hb).
      exists (ParenthesisTerm Open :: suffix). split.
      * now rewrite <- app_assoc.
      * exact Hb.
    + simpl in H. destruct (d - 1 <? 0) eqn:En; [discriminate|].
      destruct (IH _ _ _ H) as (suffix & -> & Hb).
      exists (ParenthesisTerm Close :: suffix). split.
      * now rewrite <- app_assoc.
      * simpl. now rewrite En.
    + rewrite E1, E2 in H. destruct (d <? 0); [discriminate|].
      destruct (IH _ _ _ H) as (suffix & -> & Hb).
      exists (ts ++ suffix). split.
      * now rewrite <- app_assoc.
      * now rewrite parensBalancedFrom_skip.
Qed.

(** Whatever [tokenizeFormula] accepts has balanced parentheses. *)
Lemma tokenizeFormula_balanced (formula : string) (terms : list ParsedTerm) :
  tokenizeFormula formula = Some terms -> parensBalanced terms = true.
Proof.
  unfold tokenizeFormula. intros H.
  destruct (String.eqb (Lex.clean formula) EmptyString).
  - now injection H as <-.
  - destruct (parseTokens_balanced _ _ _ _ H) as (suffix & -> & Hb). exact Hb.
Qed.

(** Replacing dice by their rolled totals leaves the parentheses alone. *)
Lemma rollTerms_balanced (random : nat -> Q) (terms : list ParsedTerm) :
  forall depth rollDetails g,
    parensBalancedFrom depth (fst (fst (rollTerms random terms rollDetails g)))
    = parensBalancedFrom depth terms.
Proof.
  induction terms as [|term rest IH]; intros depth rd g; [reflexivity|].
  destruct term as [count sides|value|op|[|]]; simpl.
  - destruct (rollEach random (Z.to_nat count) sides 0 rd g) as [[tr rd1] g1].
    specialize (IH depth rd1 g1).
    destruct (rollTerms random rest rd1 g1) as [[r rd2] g2]. exact IH.
  - specialize (IH depth rd g).
    destruct (rollTerms random rest rd g) as [[r rd2] g2]. exact IH.
  - specialize (IH depth rd g).
    destruct (rollTerms random rest rd g) as [[r rd2] g2]. exact IH.
  - specialize (IH (depth + 1) rd g).
    destruct (rollTerms random rest rd g) as [[r rd2] g2]. exact IH.
  - specialize (IH (depth - 1) rd g).
    destruct (rollTerms random rest rd g) as [[r rd2] g2]. simpl in *.
    now rewrite IH.
Qed.

(** On balanced input [simulateRoll] reports the sum of the number terms. *)
Lemma simulateRoll_modifier (random : nat -> Q) (terms : list ParsedTerm) (g : nat) :
  parensBalanced terms = true ->
  modifier (fst (simulateRoll random terms g)) = sumNumbers terms.
Proof.
  intros Hbal. unfold simulateRoll.
  destruct terms as [|term rest]; [reflexivity|].
  pose proof (rollTerms_balanced random (term :: rest) 0 [] g) as Hr.
  destruct (rollTerms random (term :: rest) [] g) as [[rolled rd] g1].
  simpl fst in Hr.
  assert (Hb : parensBalanced rolled = true) by (unfold parensBalanced; now rewrite Hr).
  destruct (evaluateWith_ok (resolveTermRoll random) applyOp (Fin 0) rolled g1 Hb)
    as (v & g2 & E).
  unfold evaluateRoll. now rewrite E.
Qed.

Lemma evaluate_ok (terms : list ParsedTerm) (mode : Mode) :
  parensBalanced terms = true -> exists v, evaluate terms mode = Ok v.
Proof.
  intros Hbal. unfold evaluate.
  destruct (evaluateWith_ok (fun term (st : unit) => (resolveTerm mode term, st))
                            applyOp (Fin 0) terms tt Hbal) as (v & st' & ->).
  now exists v.
Qed.

Lemma totalDice_nonempty (terms : list ParsedTerm) :
  8 < totalDice terms -> terms <> [].
Proof. intros H ->. vm_compute in H. discriminate. Qed.

(* ================================================================== *)
(** ** Scalar evaluation *)

(** C3. A dice term [c d s] resolves to [c] in Min mode, to [c * s] in Max
    mode and to [c * (s + 1) / 2] in Average mode; a number term resolves to
    its literal in every mode; these are the values [evaluate] returns for a
    one-term sequence; [calculateStats] always reports
    [avgFloored = floor avg]; and ["3d8+4"] has min 7, max 28, average 35/2
    and floored average 17. *)
Theorem C3_term_resolution_and_floor :
  (forall c s,
      num_eq (resolveTerm Min (CDice c s)) (Fin (inject_Z (c * 1)))
      /\ num_eq (resolveTerm Max (CDice c s)) (Fin (inject_Z (c * s)))
      /\ num_eq (resolveTerm Avg (CDice c s)) (Fin (c * (s + 1) # 2)))
  /\ (forall mode v, resolveTerm mode (CNumber v) = Fin v)
  /\ (forall mode t, evaluate [termOf t] mode = Ok (resolveTerm mode t))
  /\ (forall terms,
         avgFloored (calculateStats terms) = floor (avg (calculateStats terms)))
  /\ (tokenizeFormula "3d8+4" = Some [DiceTerm 3 8; OperatorTerm Plus; NumberTerm 4]
      /\ calculateStats [DiceTerm 3 8; OperatorTerm Plus; NumberTerm 4]
         = mkStats (Fin 7) (Fin 28) (Fin (35 # 2)) (Fin 17)).
Proof.
  split; [|split; [|split; [|split]]].
  - intros c s. split; [|split]; cbn [num_eq resolveTerm].
    + now rewrite inject_Z_mult.
    + now rewrite inject_Z_mult.
    + rewrite (Qmake_Qdiv (c * (s + 1)) 2), inject_Z_mult, inject_Z_plus.
      reflexivity.
  - reflexivity.
  - intros mode []; reflexivity.
  - intros terms. unfold calculateStats.
    destruct terms as [|t rest]; [reflexivity|].
    destruct (evaluate (t :: rest) Min); [|reflexivity].
    destruct (evaluate (t :: rest) Max); [|reflexivity].
    destruct (evaluate (t :: rest) Avg); reflexivity.
  - split; vm_compute; reflexivity.
Qed.

(** C7. When the dice counts of a term sequence add up to more than 8,
    [calculateProbabilityDistribution] returns the empty sequence, while
    [calculateStats] still reports what the three evaluations return (and on
    balanced input they do return). *)
Theorem C7_refusal_above_eight_dice (terms : list ParsedTerm) :
  8 < totalDice terms ->
  calculateProbabilityDistribution terms = []
  /\ (forall mn mx av,
         evaluate terms Min = Ok mn -> evaluate terms Max = Ok mx ->
         evaluate terms Avg = Ok av ->
         calculateStats terms = mkStats mn mx av (floor av))
  /\ (parensBalanced terms = true ->
      exists mn mx av,
        evaluate terms Min = Ok mn /\ evaluate terms Max = Ok mx
        /\ evaluate terms Avg = Ok av).
Proof.
  intros Hdice. pose proof (totalDice_nonempty terms Hdice) as Hne.
  split; [|split].
  - unfold calculateProbabilityDistribution.
    destruct terms as [|t rest]; [reflexivity|].
    apply Z.ltb_lt in Hdice. now rewrite Hdice.
  - intros mn mx av E1 E2 E3. unfold calculateStats.
    destruct terms as [|t rest]; [contradiction|].
    now rewrite E1, E2, E3.
  - intros Hbal.
    destruct (evaluate_ok terms Min Hbal) as (mn & E1).
    destruct (evaluate_ok terms Max Hbal) as (mx & E2).
    destruct (evaluate_ok terms Avg Hbal) as (av & E3).
    now exists mn, mx, av.
Qed.

(** C7 at ["9d6"]: no distribution, and min 9, max 54, average 63/2. *)
Lemma C7_nine_d6 :
  tokenizeFormula "9d6" = Some [DiceTerm 9 6]
  /\ 8 < totalDice [DiceTerm 9 6]
  /\ calculateProbabilityDistribution [DiceTerm 9 6] = []
  /\ calculateStats [DiceTerm 9 6]
     = mkStats (Fin 9) (Fin 54) (Fin (63 # 2)) (Fin 31).
Proof.
  assert (H : 8 < totalDice [DiceTerm 9 6]) by reflexivity.
  split; [reflexivity|]. split; [exact H|].
  destruct (C7_refusal_above_eight_dice [DiceTerm 9 6] H) as (Hd & Hs & _).
  split; [exact Hd|].
  apply Hs; reflexivity.
Defined.

(* ================================================================== *)
(** ** The modifier of a simulated roll *)

(** C10. For every formula the tokenizer accepts, whatever the random draws,
    the modifier reported by [simulateRoll] is the sum of all number terms of
    the tokenized sequence, the [-1] that stands for a folded minus sign
    included: ["-1d6+3"] tokenizes to [-1 * 1d6 + 3] and its modifier
    is 2. *)
Theorem C10_modifier_counts_folded_sign (random : nat -> Q) (g : nat) :
  (forall formula terms,
      tokenizeFormula formula = Some terms ->
      modifier (fst (simulateRoll random terms g)) = sumNumbers terms)
  /\ tokenizeFormula "-1d6+3"
     = Some [NumberTerm (-1); OperatorTerm Times; DiceTerm 1 6; OperatorTerm Plus;
             NumberTerm 3]
  /\ modifier (fst (simulateRoll random
                      [NumberTerm (-1); OperatorTerm Times; DiceTerm 1 6;
                       OperatorTerm Plus; NumberTerm 3] g)) = 2%Q.
Proof.
  split; [|split].
  - intros formula terms H. apply simulateRoll_modifier.
    eapply tokenizeFormula_balanced; exact H.
  - reflexivity.
  - reflexivity.
Qed.

(** C10 at ["-1d6+3"] with every draw equal to 0. *)
Lemma C10_minus_1d6_plus_3 :
  tokenizeFormula "-1d6+3"
  = Some [NumberTerm (-1); OperatorTerm Times; DiceTerm 1 6; OperatorTerm Plus;
          NumberTerm 3]
  /\ modifier (fst (simulateRoll (fun _ => 0%Q)
                      [NumberTerm (-1); OperatorTerm Times; DiceTerm 1 6;
                       OperatorTerm Plus; NumberTerm 3] 0))
     = sumNumbers [NumberTerm (-1); OperatorTerm Times; DiceTerm 1 6;
                   OperatorTerm Plus; NumberTerm 3].
Proof.
  split; [reflexivity|].
  apply (proj1 (C10_modifier_counts_folded_sign (fun _ => 0%Q) 0%nat) "-1d6+3"%string).
  reflexivity.
Defined.

(* ================================================================== *)
(** ** Division by zero *)

Lemma fold_left_pointwise {A B : Type} (f g : A -> B -> A) (l : list B) :
  (forall a b, f a b = g a b) ->
  forall a, fold_left f l a = fold_left g l a.
Proof.
  intros Hfg. induction l as [|b l IH]; intros a; simpl; [reflexivity|].
  now rewrite Hfg, IH.
Qed.

(** In a quotient, the entries of the right distribution whose value is zero
    leave the accumulated map untouched. *)
Lemma combineStep_divide_skips_zero (val1 : Q) (count1 : Z) (dist2 : Distribution) :
  forall newDist,
    fold_left (combineStep Divide val1 count1) dist2 newDist
    = fold_left (combineStep Divide val1 count1) (filter nonZeroKey dist2) newDist.
Proof.
  induction dist2 as [|[val2 count2] dist2 IH]; intros newDist; [reflexivity|].
  cbn [filter]. unfold nonZeroKey at 1. cbn [fst].
  destruct (Qeq_bool val2 0) eqn:E; cbn [negb fold_left].
  - replace (combineStep Divide val1 count1 newDist (val2, count2)) with newDist
      by (unfold combineStep, combineValues; now rewrite E).
    apply IH.
  - apply IH.
Qed.

(** C8. In scalar evaluation a division whose right operand is zero gives
    NaN, through the test [b === 0] and not through the quotient, which
    would be an infinity for a dividend other than zero; an operation with a
    NaN operand gives NaN again, whatever the other operand is; evaluation
    goes on and returns that NaN instead of throwing, in the modes min, max,
    avg and roll alike.  In [combineDistributions] a pair whose divisor is
    zero adds no bucket: the quotient of two distributions is the one
    obtained after the zero outcomes of the right distribution are
    removed. *)
Theorem C8_division_by_zero :
  (forall den a, applyOp Divide (Some (Fin (0 # den))) a = NaN)
  /\ (forall x den, ndiv (Fin x) (Fin (0 # den)) = infinityLike x)
  /\ (ndiv (Fin 1) (Fin 0) = PosInf
      /\ ndiv (Fin (-1)) (Fin 0) = NegInf
      /\ applyOp Divide (Some (Fin 0)) (Some (Fin 1)) = NaN
      /\ applyOp Divide (Some (Fin 0)) (Some (Fin (-1))) = NaN)
  /\ (forall op x, applyOp op (Some NaN) x = NaN /\ applyOp op x (Some NaN) = NaN)
  /\ (forall mode op x y,
         evaluate [NumberTerm x; OperatorTerm Divide; NumberTerm 0;
                   OperatorTerm op; NumberTerm y] mode = Ok NaN)
  /\ (forall random g op x y,
         evaluateRoll random
                      [NumberTerm x; OperatorTerm Divide; NumberTerm 0;
                       OperatorTerm op; NumberTerm y] g = Ok (NaN, g))
  /\ (forall val1 count1 den count2 newDist,
         combineStep Divide val1 count1 newDist (0 # den, count2) = newDist)
  /\ (forall dist1 dist2,
         combineDistributions (Some dist1) (Some dist2) Divide
         = combineDistributions (Some dist1) (Some (filter nonZeroKey dist2)) Divide)
  /\ (tokenizeFormula "1/0"
      = Some [NumberTerm 1; OperatorTerm Divide; NumberTerm 0]
      /\ calculateStats [NumberTerm 1; OperatorTerm Divide; NumberTerm 0]
         = mkStats NaN NaN NaN NaN
      /\ evaluateDist [NumberTerm 1; OperatorTerm Divide; NumberTerm 0] = Ok []).
Proof.
  split; [|split; [|split; [|split; [|split; [|split; [|split; [|split]]]]]]].
  - reflexivity.
  - reflexivity.
  - repeat split; reflexivity.
  - intros op x. split.
    + destruct op, x as [[q| | |]|]; reflexivity.
    + destruct op, x as [[q| | |]|]; simpl; try reflexivity;
        destruct (Qeq_bool q 0); reflexivity.
  - intros mode op x y. destruct op; try reflexivity.
    destruct y as [[|p|p] d]; reflexivity.
  - intros random g op x y. destruct op; try reflexivity.
    destruct y as [[|p|p] d]; reflexivity.
  - reflexivity.
  - intros dist1 dist2. unfold combineDistributions.
    apply fold_left_pointwise. intros newDist [val1 count1].
    apply combineStep_divide_skips_zero.
  - repeat split; vm_compute; reflexivity.
Qed.

(* ================================================================== *)
(** ** What the tokenizer accepts and rejects *)

(** C4, as the tokenizer behaves: ["2d6++3"], ["(1d6+4"] and ["1d0"] are
    rejected by [tokenizeFormula] and hence by [parseDiceFormula]. *)
Theorem C4_rejected_inputs :
  tokenizeFormula "2d6++3" = None /\ parseDiceFormula "2d6++3" = None
  /\ tokenizeFormula "(1d6+4" = None /\ parseDiceFormula "(1d6+4" = None
  /\ tokenizeFormula "1d0" = None /\ parseDiceFormula "1d0" = None.
Proof. repeat split; vm_compute; reflexivity. Qed.

(** C4 fails at ["d6 d6"]: blanks are removed, the first ['d'] matches no
    token class and is skipped, and what remains is the dice token ["6d6"]. *)
Lemma C4_d6_d6_is_accepted :
  Lex.clean "d6 d6" = "d6d6"%string
  /\ Lex.matchAll "d6d6" = ["6d6"%string]
  /\ tokenizeFormula "d6 d6" = Some [DiceTerm 6 6]
  /\ tokenizeFormula "d6 d6" <> None
  /\ parseDiceFormula "d6 d6" <> None.
Proof. repeat split; try reflexivity; vm_compute; discriminate. Qed.

(** C6: the input ["d6"] does not produce the dice term 1d6.  The regular
    expression asks for a digit before ['d'], so only ["6"] is matched and the
    result is the number 6, though [parseDice] itself would read ["d6"] as
    count 1, sides 6. *)
Theorem C6_d6_is_read_as_a_number :
  Lex.matchAll "d6" = ["6"%string]
  /\ tokenizeFormula "d6" = Some [NumberTerm 6]
  /\ ~ In (DiceTerm 1 6) [NumberTerm 6]
  /\ parseDice "d6" = Some (1, 6).
Proof.
  repeat split; try reflexivity.
  intros [H|[]]. discriminate.
Qed.

(* ------------------------------------------------------------------ *)
(** *** Sign folding *)

Lemma signPosition_after (i : nat) (processed : list string) (prev : string) :
  In prev ["("; "+"; "-"; "*"; "/"]%string ->
  signPosition i (processed ++ [prev]) = true.
Proof.
  intros Hin. unfold signPosition.
  rewrite map_app. cbn [map]. rewrite last_last.
  replace (inList prev ["("; "+"; "-"; "*"; "/"]%string) with true.
  - apply orb_true_r.
  - symmetry. unfold inList. apply existsb_exists. exists prev.
    split; [exact Hin | apply String.eqb_refl].
Qed.

Lemma diceToken_not_number (tok : string) :
  Lex.isDiceToken tok = true -> Lex.isUnsignedNumber tok = false.
Proof.
  unfold Lex.isDiceToken, Lex.altDice, Lex.matchPair, Lex.isUnsignedNumber.
  destruct (Lex.digitsPrefix tok) as [|n]; [discriminate|].
  destruct (Lex.drop (S n) tok) as [|c r]; [discriminate|].
  destruct (Ascii.eqb c "d") eqn:Ec; [|discriminate].
  apply Ascii.eqb_eq in Ec. subst c. reflexivity.
Qed.

Lemma diceToken_nonempty (tok : string) :
  Lex.isDiceToken tok = true -> exists c r, tok = String c r.
Proof.
  destruct tok as [|c r]; [discriminate|]. intros _. now exists c, r.
Qed.

Lemma classify_minus_number (tok : string) :
  Lex.isUnsignedNumber tok = true ->
  classify ("-" ++ tok) = Some [NumberTerm (- Lex.parseUnsigned tok)].
Proof.
  intros H. change ("-" ++ tok)%string with (String "-" tok).
  unfold classify.
  change (Lex.isDiceToken (String "-" tok)) with false.
  change (Lex.isNumberToken (String "-" tok)) with (Lex.isUnsignedNumber tok).
  now rewrite H.
Qed.

Lemma classify_minus_dice (tok : string) (c s : Z) :
  Lex.isDiceToken tok = true -> parseDice tok = Some (c, s) ->
  classify ("-" ++ tok)
  = Some [NumberTerm (-1); OperatorTerm Times; DiceTerm c s].
Proof.
  intros Hd Hp. pose proof (diceToken_not_number tok Hd) as Hn.
  destruct (diceToken_nonempty tok Hd) as (a & r & ->).
  change ("-" ++ String a r)%string with (String "-" (String a r)).
  unfold classify.
  change (Lex.isDiceToken (String "-" (String a r))) with false.
  change (Lex.isNumberToken (String "-" (String a r)))
    with (Lex.isUnsignedNumber (String a r)).
  rewrite Hn.
  change (operatorOf (String "-" (String a r))) with (@None Operator).
  change (parenOf (String "-" (String a r))) with (@None Paren).
  change (Lex.isNegDiceToken (String "-" (String a r)))
    with (Lex.isDiceToken (String a r)).
  rewrite Hd.
  change (Lex.drop 1 (String "-" (String a r))) with (String a r).
  now rewrite Hp.
Qed.

(** C5, as the tokenizer behaves.  A ['-'] at the start of the formula, or
    right after ['('] or an operator, is merged into the next token when
    that token starts with a digit (a number or a dice token), and is kept
    as an operator otherwise.  A merged number token becomes one number term
    with the negated value; a merged dice token becomes the three terms
    [-1], [*], dice. *)
Theorem C5_minus_sign_folding :
  (forall i processed next rest,
      signPosition i processed = true -> foldable next = true ->
      foldSigns i "-" (next :: rest) processed
      = foldSigns (S i) ("-" ++ next) rest processed)
  /\ (forall processed, signPosition 0 processed = true)
  /\ (forall i processed prev,
         In prev ["("; "+"; "-"; "*"; "/"]%string ->
         signPosition i (processed ++ [prev]) = true)
  /\ (forall i processed next rest,
         foldable next = false ->
         foldSigns i "-" (next :: rest) processed
         = foldSigns (S i) next rest (processed ++ ["-"%string]))
  /\ (forall tok,
         Lex.isUnsignedNumber tok = true ->
         classify ("-" ++ tok) = Some [NumberTerm (- Lex.parseUnsigned tok)])
  /\ (forall tok c s,
         Lex.isDiceToken tok = true -> parseDice tok = Some (c, s) ->
         classify ("-" ++ tok)
         = Some [NumberTerm (-1); OperatorTerm Times; DiceTerm c s])
  /\ (tokenizeFormula "-3" = Some [NumberTerm (-3)]
      /\ tokenizeFormula "-1d6"
         = Some [NumberTerm (-1); OperatorTerm Times; DiceTerm 1 6]
      /\ tokenizeFormula "(-3)"
         = Some [ParenthesisTerm Open; NumberTerm (-3); ParenthesisTerm Close]
      /\ tokenizeFormula "2*-1d6"
         = Some [NumberTerm 2; OperatorTerm Times; NumberTerm (-1);
                 OperatorTerm Times; DiceTerm 1 6]
      /\ tokenizeFormula "2-3"
         = Some [NumberTerm 2; OperatorTerm Minus; NumberTerm 3]).
Proof.
  split; [|split; [|split; [|split; [|split; [|split]]]]].
  - intros i processed next rest Hs Hf. cbn [foldSigns].
    change (isSign "-") with true. now rewrite Hs, Hf.
  - reflexivity.
  - apply signPosition_after.
  - intros i processed next rest Hf. cbn [foldSigns].
    rewrite Hf. now rewrite andb_false_r.
  - apply classify_minus_number.
  - apply classify_minus_dice.
  - repeat split; vm_compute; reflexivity.
Qed.

(** C5 at the token ["3"] after a leading ['-']. *)
Lemma C5_minus_three :
  Lex.isUnsignedNumber "3" = true
  /\ classify "-3" = Some [NumberTerm (- Lex.parseUnsigned "3")].
Proof.
  split; [reflexivity|].
  apply (proj1 (proj2 (proj2 (proj2 (proj2 C5_minus_sign_folding)))) "3"%string).
  reflexivity.
Defined.

(** C5 fails twice: a leading ['+'] is merged into the number but the merged
    token ["+3"] is matched by no pattern, so the formula is rejected; and a
    leading ['-'] before ['('] is not a sign prefix but an operator term. *)
Lemma C5_plus_three_rejected_minus_paren_operator :
  foldUnary (Lex.matchAll "+3") = ["+3"%string]
  /\ classify "+3" = None
  /\ tokenizeFormula "+3" = None
  /\ tokenizeFormula "+3" <> Some [NumberTerm 3]
  /\ tokenizeFormula "-(2)"
     = Some [OperatorTerm Minus; ParenthesisTerm Open; NumberTerm 2;
             ParenthesisTerm Close].
Proof. repeat split; try reflexivity. vm_compute. discriminate. Qed.

(** The earlier tokenizer strips a leading ['+'] and accepts these inputs. *)
Lemma Legacy_accepts_plus_prefix :
  Legacy.tokenizeFormula "+3" = Some [NumberTerm 3]
  /\ Legacy.tokenizeFormula "+1d6" = Some [DiceTerm 1 6]
  /\ Legacy.tokenizeFormula "d6 d6" = Some [DiceTerm 6 6].
Proof. repeat split; vm_compute; reflexivity. Qed.

(** The earlier tokenizer knows no parentheses and reads the second ['+'] of
    ["2d6++3"] as a sign; of the four malformed inputs it rejects ["1d0"]
    only. *)
Lemma Legacy_malformed_inputs :
  Legacy.tokenizeFormula "2d6++3"
  = Some [DiceTerm 2 6; OperatorTerm Plus; NumberTerm 3]
  /\ Legacy.tokenizeFormula "(1d6+4"
     = Some [DiceTerm 1 6; OperatorTerm Plus; NumberTerm 4]
  /\ Legacy.tokenizeFormula "1d0" = None.
Proof. repeat split; vm_compute; reflexivity. Qed.

(* ================================================================== *)
(** ** Leftover values on the stack *)

Lemma evaluateDist_distStack (terms : list ParsedTerm) :
  terms <> [] ->
  evaluateDist terms
  = match distStack terms with
    | Ok values => Ok (pick [(0%Q, 1)] values)
    | Throw msg => Throw msg
    end.
Proof.
  intros Hne. unfold evaluateDist, distStack, evaluateWith.
  destruct terms as [|t rest]; [contradiction|].
  destruct (finalStack _ _ (t :: rest) tt) as [[values st]|msg]; reflexivity.
Qed.

(** C9, as the engine behaves.  When more than one distribution is left on
    the stack, [evaluate] returns the top of the stack, the distribution
    computed last, as it is; [calculateProbabilityDistribution] then
    normalises that distribution like any other result. *)
Theorem C9_leftover_stack_returns_top
        (terms : list ParsedTerm) (top : Distribution) (rest : list Distribution) :
  distStack terms = Ok (top :: rest) -> rest <> [] ->
  evaluateDist terms = Ok top
  /\ (totalDice terms <= 8 ->
      calculateProbabilityDistribution terms
      = if totalCombinations top =? 0 then []
        else sortByValue (normalize top (totalCombinations top))).
Proof.
  intros Hs Hrest.
  assert (Hne : terms <> []) by (intros ->; discriminate).
  assert (He : evaluateDist terms = Ok top).
  { rewrite (evaluateDist_distStack terms Hne), Hs.
    destruct rest as [|r rest']; [contradiction | reflexivity]. }
  split; [exact He|].
  intros Hd. unfold calculateProbabilityDistribution.
  destruct terms as [|t ts]; [contradiction|].
  apply Z.ltb_ge in Hd. now rewrite Hd, He.
Qed.

(** C9 at ["1d6(1d6)"], which leaves two distributions on the stack. *)
Lemma C9_two_leftover_values :
  tokenizeFormula "1d6(1d6)"
  = Some [DiceTerm 1 6; ParenthesisTerm Open; DiceTerm 1 6; ParenthesisTerm Close]
  /\ evaluateDist [DiceTerm 1 6; ParenthesisTerm Open; DiceTerm 1 6;
                   ParenthesisTerm Close]
     = Ok (getTermDistribution (CDice 1 6)).
Proof.
  split; [reflexivity|].
  apply (C9_leftover_stack_returns_top
           [DiceTerm 1 6; ParenthesisTerm Open; DiceTerm 1 6; ParenthesisTerm Close]
           (getTermDistribution (CDice 1 6)) [getTermDistribution (CDice 1 6)]).
  - reflexivity.
  - discriminate.
Defined.

(** C9 fails at ["1d6(1d6)"]: two values are left on the stack and the
    result is the whole distribution of the second [1d6], six outcomes, not
    a single point. *)
Lemma C9_fallback_is_not_single_point :
  tokenizeFormula "1d6(1d6)"
  = Some [DiceTerm 1 6; ParenthesisTerm Open; DiceTerm 1 6; ParenthesisTerm Close]
  /\ (exists top below,
         distStack [DiceTerm 1 6; ParenthesisTerm Open; DiceTerm 1 6;
                    ParenthesisTerm Close] = Ok [top; below]
         /\ evaluateDist [DiceTerm 1 6; ParenthesisTerm Open; DiceTerm 1 6;
                          ParenthesisTerm Close] = Ok top
         /\ List.length top = 6%nat)
  /\ List.length (calculateProbabilityDistribution
               [DiceTerm 1 6; ParenthesisTerm Open; DiceTerm 1 6;
                ParenthesisTerm Close]) = 6%nat.
Proof.
  split; [reflexivity|]. split.
  - exists (getTermDistribution (CDice 1 6)), (getTermDistribution (CDice 1 6)).
    repeat split; reflexivity.
  - reflexivity.
Qed.

(* ================================================================== *)
(** ** The probability distribution *)

(** *** Multiplicities stay positive *)

Lemma fold_left_invariant {A B : Type} (I : A -> Prop) (f : A -> B -> A)
      (l : list B) :
  (forall a b, I a -> In b l -> I (f a b)) ->
  forall a, I a -> I (fold_left f l a).
Proof.
  induction l as [|b l IH]; intros Hf a Ha; simpl; [exact Ha|].
  apply IH.
  - intros a' b' Ha' Hb'. apply Hf; [exact Ha' | now right].
  - apply Hf; [exact Ha | now left].
Qed.

Lemma get_positive (k : Q) (m : Distribution) (v : Z) :
  positiveCounts m -> Dist.get k m = Some v -> 0 < v.
Proof.
  induction 1 as [|[k' v'] m Hv _ IH]; simpl; [discriminate|].
  destruct (Qeq_bool k k'); [|exact IH].
  intros E. injection E as <-. exact Hv.
Qed.

Lemma set_positive (k : Q) (v : Z) (m : Distribution) :
  0 < v -> positiveCounts m -> positiveCounts (Dist.set k v m).
Proof.
  intros Hv. induction 1 as [|[k' v'] m Hv' Hm IH]; simpl.
  - repeat constructor. exact Hv.
  - destruct (Qeq_bool k k'); constructor; assumption.
Qed.

Lemma accumulate_positive (k : Q) (c : Z) (m : Distribution) :
  0 < c -> positiveCounts m -> positiveCounts (Dist.accumulate k c m).
Proof.
  intros Hc Hm. unfold Dist.accumulate. apply set_positive; [|exact Hm].
  destruct (Dist.get k m) as [v|] eqn:E; [|lia].
  pose proof (get_positive k m v Hm E). lia.
Qed.

Lemma addDie_positive (sides : Z) (currentDist : Distribution) :
  positiveCounts currentDist -> positiveCounts (addDie sides currentDist).
Proof.
  intros Hcur. unfold addDie.
  apply fold_left_invariant; [|constructor].
  intros nextDist s Hnext _.
  apply fold_left_invariant; [|exact Hnext].
  intros nd [sum count] Hnd Hin.
  apply accumulate_positive; [|exact Hnd].
  unfold positiveCounts in Hcur. rewrite Forall_forall in Hcur.
  exact (Hcur _ Hin).
Qed.

Lemma getTermDistribution_positive (term : CalculationTerm) :
  positiveCounts (getTermDistribution term).
Proof.
  destruct term as [count sides|value]; simpl.
  - induction (Z.to_nat count) as [|n IH]; simpl.
    + repeat constructor.
    + now apply addDie_positive.
  - repeat constructor.
Qed.

Lemma combineDistributions_positive (dist1 dist2 : option Distribution)
      (op : Operator) :
  (forall d, dist1 = Some d -> positiveCounts d) ->
  (forall d, dist2 = Some d -> positiveCounts d) ->
  positiveCounts (combineDistributions dist1 dist2 op).
Proof.
  intros H1 H2. unfold combineDistributions.
  destruct dist1 as [d1|]; [|constructor].
  destruct dist2 as [d2|]; [|constructor].
  specialize (H1 d1 eq_refl). specialize (H2 d2 eq_refl).
  unfold positiveCounts in H1, H2. rewrite Forall_forall in H1, H2.
  apply fold_left_invariant; [|constructor].
  intros newDist [val1 count1] Hnew Hin1.
  apply fold_left_invariant; [|exact Hnew].
  intros nd [val2 count2] Hnd Hin2. unfold combineStep.
  destruct (combineValues op val1 val2); [|exact Hnd].
  apply accumulate_positive; [|exact Hnd].
  pose proof (H1 _ Hin1). pose proof (H2 _ Hin2). simpl in *. lia.
Qed.

Lemma evaluateDist_positive (terms : list ParsedTerm) (d : Distribution) :
  evaluateDist terms = Ok d -> positiveCounts d.
Proof.
  unfold evaluateDist. intros E.
  destruct (evaluateWith _ _ _ terms tt) as [[d' st]|msg] eqn:Ee; [|discriminate].
  injection E as <-.
  refine (evaluateWith_P _ _ _ positiveCounts _ _ _ terms tt st d' Ee).
  - intros term st0. apply getTermDistribution_positive.
  - intros op b a Hb Ha. unfold applyOpDist.
    now apply combineDistributions_positive.
  - repeat constructor.
Qed.

(** *** Normalisation *)

Lemma totalCombinations_from (d : Distribution) :
  forall acc,
    fold_left (fun total e => total + snd e) d acc
    = acc + totalCombinations d.
Proof.
  unfold totalCombinations.
  induction d as [|e d IH]; intros acc; simpl; [lia|].
  rewrite (IH (acc + snd e)), (IH (snd e)). lia.
Qed.

Lemma totalCombinations_cons (e : Q * Z) (d : Distribution) :
  totalCombinations (e :: d) = snd e + totalCombinations d.
Proof.
  unfold totalCombinations at 1. simpl. apply totalCombinations_from.
Qed.

Lemma totalCombinations_nonneg (d : Distribution) :
  positiveCounts d -> 0 <= totalCombinations d.
Proof.
  induction 1 as [|e d He _ IH]; [reflexivity|].
  rewrite totalCombinations_cons. lia.
Qed.

Lemma totalCombinations_positive (d : Distribution) :
  positiveCounts d -> d <> [] -> 0 < totalCombinations d.
Proof.
  intros Hp Hne. destruct Hp as [|e d He Hd]; [contradiction|].
  rewrite totalCombinations_cons.
  pose proof (totalCombinations_nonneg d Hd). lia.
Qed.

Lemma probability_positive (count total : Z) :
  0 < count -> 0 < total -> (0 < inject_Z count / inject_Z total)%Q.
Proof.
  intros Hc Ht. apply Qlt_shift_div_l.
  - change 0%Q with (inject_Z 0). now rewrite <- Zlt_Qlt.
  - rewrite Qmult_0_l. change 0%Q with (inject_Z 0). now rewrite <- Zlt_Qlt.
Qed.

(** With positive multiplicities the filter of [normalize] keeps every entry. *)
Lemma normalize_positive (d : Distribution) (total : Z) :
  positiveCounts d -> 0 < total ->
  normalize d total
  = map (fun '(value, count) =>
           Outcome.mk value (inject_Z count / inject_Z total)) d.
Proof.
  intros Hp Ht. unfold normalize.
  induction Hp as [|[value count] d Hc _ IH]; [reflexivity|].
  cbn [map filter Outcome.probability]. rewrite IH.
  destruct (Qle_bool (inject_Z count / inject_Z total) 0) eqn:E; [|reflexivity].
  apply Qle_bool_iff in E. exfalso.
  apply (Qlt_not_le _ _ (probability_positive count total Hc Ht)). exact E.
Qed.

Lemma sumProbabilities_normalized (d : Distribution) (total : Z) :
  (sumProbabilities
     (map (fun '(value, count) =>
             Outcome.mk value (inject_Z count / inject_Z total)) d)
   == inject_Z (totalCombinations d) / inject_Z total)%Q.
Proof.
  induction d as [|[value count] d IH].
  - unfold Qdiv. now rewrite Qmult_0_l.
  - rewrite totalCombinations_cons. cbn [map sumProbabilities fold_right snd
                                           Outcome.probability].
    fold (sumProbabilities
            (map (fun '(value, count) =>
                    Outcome.mk value (inject_Z count / inject_Z total)) d)).
    rewrite IH, inject_Z_plus. unfold Qdiv. ring.
Qed.

(** *** Sorting *)

Lemma insertOutcome_perm (x : Outcome.t) (l : list Outcome.t) :
  Permutation (insertOutcome x l) (x :: l).
Proof.
  induction l as [|y l IH]; simpl; [reflexivity|].
  destruct (Qle_bool (Outcome.value x) (Outcome.value y)); [reflexivity|].
  rewrite IH. apply perm_swap.
Qed.

Lemma sortByValue_perm (l : list Outcome.t) : Permutation (sortByValue l) l.
Proof.
  induction l as [|x l IH]; simpl; [reflexivity|].
  rewrite insertOutcome_perm. now constructor.
Qed.

Lemma sumProbabilities_perm (l l' : list Outcome.t) :
  Permutation l l' -> (sumProbabilities l == sumProbabilities l')%Q.
Proof.
  induction 1 as [|x l l' _ IH|x y l|l l' l'' _ IH1 _ IH2]; simpl.
  - reflexivity.
  - now rewrite IH.
  - ring.
  - now rewrite IH1.
Qed.

Lemma insertOutcome_sorted (x : Outcome.t) (l : list Outcome.t) :
  StronglySorted byValue l -> StronglySorted byValue (insertOutcome x l).
Proof.
  induction 1 as [|y l Hl IH Hy]; simpl.
  - repeat constructor.
  - destruct (Qle_bool (Outcome.value x) (Outcome.value y)) eqn:E.
    + apply Qle_bool_iff in E. constructor; [now constructor|].
      constructor; [exact E|].
      rewrite Forall_forall in Hy |- *. intros z Hz.
      unfold byValue in *. eapply Qle_trans; [exact E | now apply Hy].
    + constructor; [exact IH|].
      assert (Hyx : byValue y x).
      { unfold byValue. apply Qlt_le_weak. apply Qnot_le_lt. intros Hle.
        apply Qle_bool_iff in Hle. congruence. }
      eapply Permutation_Forall; [symmetry; apply insertOutcome_perm|].
      now constructor.
Qed.

Lemma sortByValue_sorted (l : list Outcome.t) :
  StronglySorted byValue (sortByValue l).
Proof.
  induction l as [|x l IH]; simpl; [constructor|].
  now apply insertOutcome_sorted.
Qed.

Lemma calculateProbabilityDistribution_nonempty (terms : list ParsedTerm) :
  calculateProbabilityDistribution terms <> [] ->
  exists d,
    evaluateDist terms = Ok d
    /\ totalCombinations d <> 0
    /\ calculateProbabilityDistribution terms
       = sortByValue (normalize d (totalCombinations d)).
Proof.
  unfold calculateProbabilityDistribution.
  destruct terms as [|t rest]; [contradiction|].
  destruct (8 <? totalDice (t :: rest)); [contradiction|].
  destruct (evaluateDist (t :: rest)) as [d|msg]; [|contradiction].
  destruct (totalCombinations d =? 0) eqn:E; [contradiction|].
  intros _. exists d. apply Z.eqb_neq in E. now repeat split.
Qed.

Lemma normalize_probabilities_positive (d : Distribution) (total : Z) :
  Forall (fun item => (0 < Outcome.probability item)%Q) (normalize d total).
Proof.
  unfold normalize. apply Forall_forall. intros item Hin.
  apply filter_In in Hin. destruct Hin as [_ Hpos].
  apply Qnot_le_lt. intros Hle. apply Qle_bool_iff in Hle.
  rewrite Hle in Hpos. discriminate.
Qed.

(** C1, as the engine behaves.  Whenever [calculateProbabilityDistribution]
    returns a non-empty sequence, its probabilities add up to 1, its entries
    are in ascending order of value and every probability is positive.  The
    result is non-empty as soon as the sequence is non-empty, holds at most
    8 dice and evaluates to a non-empty distribution, and evaluation returns
    for every formula the tokenizer accepts.  For ["2d6"] the entries are
    the values 2 to 12 with the multiplicities 1, 2, .., 6, .., 2, 1 over 36;
    the value 7 has probability 6/36. *)
Theorem C1_distribution_is_normalised :
  (forall terms,
      calculateProbabilityDistribution terms <> [] ->
      (sumProbabilities (calculateProbabilityDistribution terms) == 1)%Q
      /\ StronglySorted byValue (calculateProbabilityDistribution terms)
      /\ Forall (fun item => (0 < Outcome.probability item)%Q)
                (calculateProbabilityDistribution terms))
  /\ (forall terms d,
         terms <> [] -> totalDice terms <= 8 ->
         evaluateDist terms = Ok d -> d <> [] ->
         calculateProbabilityDistribution terms <> [])
  /\ (forall formula terms,
         tokenizeFormula formula = Some terms ->
         exists d, evaluateDist terms = Ok d)
  /\ (tokenizeFormula "2d6" = Some [DiceTerm 2 6]
      /\ Forall2 outcome_eq
                 (calculateProbabilityDistribution [DiceTerm 2 6])
                 [Outcome.mk 2 (1 # 36); Outcome.mk 3 (2 # 36);
                  Outcome.mk 4 (3 # 36); Outcome.mk 5 (4 # 36);
                  Outcome.mk 6 (5 # 36); Outcome.mk 7 (6 # 36);
                  Outcome.mk 8 (5 # 36); Outcome.mk 9 (4 # 36);
                  Outcome.mk 10 (3 # 36); Outcome.mk 11 (2 # 36);
                  Outcome.mk 12 (1 # 36)]).
Proof.
  split; [|split; [|split]].
  - intros terms Hne.
    destruct (calculateProbabilityDistribution_nonempty terms Hne)
      as (d & He & Ht & ->).
    pose proof (evaluateDist_positive terms d He) as Hp.
    assert (Hpos : 0 < totalCombinations d)
      by (pose proof (totalCombinations_nonneg d Hp); lia).
    split; [|split].
    + rewrite (sumProbabilities_perm _ _ (sortByValue_perm _)).
      rewrite (normalize_positive d _ Hp Hpos), sumProbabilities_normalized.
      apply Qmult_inv_r. change 0%Q with (inject_Z 0).
      rewrite inject_Z_injective. exact Ht.
    + apply sortByValue_sorted.
    + eapply Permutation_Forall; [symmetry; apply sortByValue_perm|].
      apply normalize_probabilities_positive.
  - intros terms d Hne Hd He Hdne. unfold calculateProbabilityDistribution.
    destruct terms as [|t rest]; [contradiction|].
    apply Z.ltb_ge in Hd. rewrite Hd, He.
    pose proof (evaluateDist_positive _ d He) as Hp.
    pose proof (totalCombinations_positive d Hp Hdne) as Hpos.
    destruct (totalCombinations d =? 0) eqn:E; [apply Z.eqb_eq in E; lia|].
    rewrite (normalize_positive d _ Hp Hpos). intros Hnil.
    apply (f_equal (@List.length Outcome.t)) in Hnil.
    rewrite (Permutation_length (sortByValue_perm _)), length_map in Hnil.
    destruct d; [contradiction | discriminate].
  - intros formula terms H. unfold evaluateDist.
    destruct (evaluateWith_ok
                (fun term (st : unit) => (getTermDistribution term, st))
                applyOpDist [(0%Q, 1)] terms tt
                (tokenizeFormula_balanced formula terms H)) as (d & st & ->).
    now exists d.
  - split; [reflexivity|].
    vm_compute. repeat constructor.
Qed.

(** C1 at ["2d6"]. *)
Lemma C1_two_d6_sums_to_one :
  calculateProbabilityDistribution [DiceTerm 2 6] <> []
  /\ (sumProbabilities (calculateProbabilityDistribution [DiceTerm 2 6]) == 1)%Q.
Proof.
  assert (H : calculateProbabilityDistribution [DiceTerm 2 6] <> [])
    by (vm_compute; discriminate).
  split; [exact H|].
  exact (proj1 (proj1 C1_distribution_is_normalised [DiceTerm 2 6] H)).
Defined.

(** C1 fails for accepted formulas whose result is empty: the empty formula,
    and ["1/0"], whose only pairing is dropped.  Both hold no dice, and the
    probabilities of the empty result add up to 0. *)
Lemma C1_empty_result_does_not_sum_to_one :
  (tokenizeFormula "1/0"
   = Some [NumberTerm 1; OperatorTerm Divide; NumberTerm 0]
   /\ totalDice [NumberTerm 1; OperatorTerm Divide; NumberTerm 0] <= 8
   /\ calculateProbabilityDistribution
        [NumberTerm 1; OperatorTerm Divide; NumberTerm 0] = []
   /\ ~ (sumProbabilities
           (calculateProbabilityDistribution
              [NumberTerm 1; OperatorTerm Divide; NumberTerm 0]) == 1)%Q)
  /\ (tokenizeFormula EmptyString = Some []
      /\ totalDice [] <= 8
      /\ calculateProbabilityDistribution [] = []
      /\ ~ (sumProbabilities (calculateProbabilityDistribution []) == 1)%Q).
Proof.
  repeat split; try reflexivity; try (vm_compute; discriminate).
Qed.

(* ================================================================== *)
(** * Further properties *)

(** ** The map operations *)

Lemma Qeq_bool_sym (a b : Q) : Qeq_bool a b = Qeq_bool b a.
Proof.
  destruct (Qeq_bool a b) eqn:E1, (Qeq_bool b a) eqn:E2; try reflexivity.
  - apply Qeq_bool_iff in E1. symmetry in E1. apply Qeq_bool_iff in E1. congruence.
  - apply Qeq_bool_iff in E2. symmetry in E2. apply Qeq_bool_iff in E2. congruence.
Qed.

Lemma Qeq_bool_other (k k0 k' : Q) :
  Qeq_bool k k0 = true -> Qeq_bool k' k = false -> Qeq_bool k' k0 = false.
Proof.
  intros Hk Hne. destruct (Qeq_bool k' k0) eqn:E; [|reflexivity].
  apply Qeq_bool_iff in Hk, E.
  assert (H : (k' == k)%Q) by (now rewrite E, Hk).
  apply Qeq_bool_iff in H. congruence.
Qed.

Lemma get_set_same (k : Q) (v : Z) (m : Distribution) :
  Dist.get k (Dist.set k v m) = Some v.
Proof.
  induction m as [|[k' v'] m IH]; simpl.
  - now rewrite Qeq_bool_refl.
  - destruct (Qeq_bool k k') eqn:E; simpl; now rewrite E.
Qed.

Lemma get_set_other (k k' : Q) (v : Z) (m : Distribution) :
  Qeq_bool k' k = false -> Dist.get k' (Dist.set k v m) = Dist.get k' m.
Proof.
  intros Hne. induction m as [|[k0 v0] m IH]; simpl.
  - now rewrite Hne.
  - destruct (Qeq_bool k k0) eqn:E; simpl.
    + now rewrite (Qeq_bool_other k k0 k' E Hne).
    + destruct (Qeq_bool k' k0); [reflexivity | exact IH].
Qed.

Lemma get_congr (k k' : Q) (m : Distribution) :
  Qeq_bool k k' = true -> Dist.get k m = Dist.get k' m.
Proof.
  intros Hk. induction m as [|[k0 v0] m IH]; simpl; [reflexivity|].
  destruct (Qeq_bool k' k0) eqn:E.
  - assert (H : Qeq_bool k k0 = true).
    { apply Qeq_bool_iff in Hk, E. apply Qeq_bool_iff. now rewrite Hk. }
    now rewrite H.
  - destruct (Qeq_bool k k0) eqn:E2; [|exact IH].
    apply Qeq_bool_iff in Hk, E2.
    assert (H : (k' == k0)%Q) by (now rewrite <- Hk).
    apply Qeq_bool_iff in H. congruence.
Qed.

Lemma totalCombinations_set (k : Q) (v : Z) (m : Distribution) :
  totalCombinations (Dist.set k v m) = totalCombinations m - countOf k m + v.
Proof.
  unfold countOf. induction m as [|[k' v'] m IH]; simpl.
  - reflexivity.
  - destruct (Qeq_bool k k').
    + rewrite !totalCombinations_cons. simpl. lia.
    + rewrite !totalCombinations_cons, IH. simpl. lia.
Qed.

Lemma totalCombinations_accumulate (k : Q) (c : Z) (m : Distribution) :
  totalCombinations (Dist.accumulate k c m) = totalCombinations m + c.
Proof.
  unfold Dist.accumulate. rewrite totalCombinations_set. unfold countOf.
  destruct (Dist.get k m); lia.
Qed.

Lemma length_set (k : Q) (v : Z) (m : Distribution) :
  List.length (Dist.set k v m)
  = match Dist.get k m with
    | Some _ => List.length m
    | None => S (List.length m)
    end.
Proof.
  induction m as [|[k' v'] m IH]; simpl; [reflexivity|].
  destruct (Qeq_bool k k'); simpl; [reflexivity|].
  rewrite IH. now destruct (Dist.get k m).
Qed.

(** X1. Writing a key and reading it back gives the value written, also
    under another representation of the same number; reading any other key
    is not affected; a new key adds one entry and an existing key none;
    [accumulate] adds to the stored count and to the total by the same
    amount. *)
Theorem map_set_then_get (k k' : Q) (v c : Z) (m : Distribution) :
  (Qeq_bool k' k = true -> Dist.get k' (Dist.set k v m) = Some v)
  /\ (Qeq_bool k' k = false -> Dist.get k' (Dist.set k v m) = Dist.get k' m)
  /\ List.length (Dist.set k v m)
     = match Dist.get k m with
       | Some _ => List.length m
       | None => S (List.length m)
       end
  /\ Dist.get k (Dist.accumulate k c m) = Some (countOf k m + c)
  /\ totalCombinations (Dist.accumulate k c m) = totalCombinations m + c.
Proof.
  split; [|split; [|split; [|split]]].
  - intros H. rewrite (get_congr k' k _ H). apply get_set_same.
  - apply get_set_other.
  - apply length_set.
  - unfold Dist.accumulate, countOf. apply get_set_same.
  - apply totalCombinations_accumulate.
Qed.

(** X1 at the map of a die with faces 1 and 2. *)
Lemma map_set_then_get_example :
  Qeq_bool (4 # 2) 2 = true
  /\ Dist.get (4 # 2) (Dist.set 2 7 [(1%Q, 1); (2%Q, 1)]) = Some 7.
Proof.
  split; [reflexivity|].
  apply (proj1 (map_set_then_get 2 (4 # 2) 7 0 [(1%Q, 1); (2%Q, 1)])).
  reflexivity.
Defined.

(** ** Keys stay distinct *)

Lemma set_keeps_fresh (k0 k : Q) (v : Z) (m : Distribution) :
  Qeq_bool k0 k = false ->
  Forall (fun e => Qeq_bool k0 (fst e) = false) m ->
  Forall (fun e => Qeq_bool k0 (fst e) = false) (Dist.set k v m).
Proof.
  intros Hne. induction 1 as [|[k' v'] m Hk' Hm IH]; simpl.
  - repeat constructor. exact Hne.
  - destruct (Qeq_bool k k'); constructor; assumption.
Qed.

Lemma set_distinct (k : Q) (v : Z) (m : Distribution) :
  distinctKeys m -> distinctKeys (Dist.set k v m).
Proof.
  induction 1 as [|[k' v'] m Hfresh Hm IH]; simpl.
  - repeat constructor.
  - destruct (Qeq_bool k k') eqn:E.
    + constructor; assumption.
    + constructor; [|exact IH].
      apply set_keeps_fresh; [|exact Hfresh].
      simpl. now rewrite Qeq_bool_sym.
Qed.

Lemma accumulate_distinct (k : Q) (c : Z) (m : Distribution) :
  distinctKeys m -> distinctKeys (Dist.accumulate k c m).
Proof. apply set_distinct. Qed.

Lemma addDie_distinct (sides : Z) (currentDist : Distribution) :
  distinctKeys (addDie sides currentDist).
Proof.
  unfold addDie. apply fold_left_invariant; [|constructor].
  intros nextDist s Hnext _.
  apply fold_left_invariant; [|exact Hnext].
  intros nd [sum count] Hnd _. now apply accumulate_distinct.
Qed.

Lemma getTermDistribution_distinct (term : CalculationTerm) :
  distinctKeys (getTermDistribution term).
Proof.
  destruct term as [count sides|value]; simpl.
  - destruct (Z.to_nat count) as [|n]; simpl.
    + repeat constructor.
    + apply addDie_distinct.
  - repeat constructor.
Qed.

Lemma combineDistributions_distinct (dist1 dist2 : option Distribution)
      (op : Operator) :
  distinctKeys (combineDistributions dist1 dist2 op).
Proof.
  unfold combineDistributions.
  destruct dist1 as [d1|]; [|constructor].
  destruct dist2 as [d2|]; [|constructor].
  apply fold_left_invariant; [|constructor].
  intros newDist [val1 count1] Hnew _.
  apply fold_left_invariant; [|exact Hnew].
  intros nd [val2 count2] Hnd _. unfold combineStep.
  destruct (combineValues op val1 val2); [|exact Hnd].
  now apply accumulate_distinct.
Qed.

Lemma evaluateDist_distinct (terms : list ParsedTerm) (d : Distribution) :
  evaluateDist terms = Ok d -> distinctKeys d.
Proof.
  unfold evaluateDist. intros E.
  destruct (evaluateWith _ _ _ terms tt) as [[d' st]|msg] eqn:Ee; [|discriminate].
  injection E as <-.
  refine (evaluateWith_P _ _ _ distinctKeys _ _ _ terms tt st d' Ee).
  - intros term st0. apply getTermDistribution_distinct.
  - intros op b a _ _. apply combineDistributions_distinct.
  - repeat constructor.
Qed.

Lemma insertOutcome_strict (x : Outcome.t) (l : list Outcome.t) :
  StronglySorted strictlyByValue l ->
  Forall (fun y => Qeq_bool (Outcome.value x) (Outcome.value y) = false) l ->
  StronglySorted strictlyByValue (insertOutcome x l).
Proof.
  induction 1 as [|y l Hl IH Hy]; simpl; intros Hx.
  - repeat constructor.
  - inversion Hx as [|? ? Hxy Hxl]; subst.
    assert (Hne : ~ (Outcome.value x == Outcome.value y)%Q).
    { intros Heq. apply Qeq_bool_iff in Heq. congruence. }
    destruct (Qle_bool (Outcome.value x) (Outcome.value y)) eqn:E.
    + apply Qle_bool_iff in E.
      assert (Hlt : strictlyByValue x y).
      { unfold strictlyByValue. apply Qle_lteq in E. destruct E; tauto. }
      constructor; [now constructor|].
      constructor; [exact Hlt|].
      rewrite Forall_forall in Hy |- *. intros z Hz.
      unfold strictlyByValue in *. eapply Qlt_trans; [exact Hlt | now apply Hy].
    + constructor; [now apply IH|].
      assert (Hyx : strictlyByValue y x).
      { unfold strictlyByValue. apply Qnot_le_lt. intros Hle.
        apply Qle_bool_iff in Hle. congruence. }
      eapply Permutation_Forall; [symmetry; apply insertOutcome_perm|].
      now constructor.
Qed.

Lemma sortByValue_strict (l : list Outcome.t) :
  ForallOrdPairs
    (fun a b => Qeq_bool (Outcome.value a) (Outcome.value b) = false) l ->
  StronglySorted strictlyByValue (sortByValue l).
Proof.
  induction 1 as [|x l Hx _ IH]; simpl; [constructor|].
  apply insertOutcome_strict; [exact IH|].
  eapply Permutation_Forall; [symmetry; apply sortByValue_perm | exact Hx].
Qed.

Lemma normalize_distinct (d : Distribution) (total : Z) :
  distinctKeys d ->
  ForallOrdPairs
    (fun a b => Qeq_bool (Outcome.value a) (Outcome.value b) = false)
    (normalize d total).
Proof.
  unfold normalize.
  induction 1 as [|[value count] d Hfresh _ IH]; simpl; [constructor|].
  destruct (negb (Qle_bool (inject_Z count / inject_Z total) 0)); [|exact IH].
  constructor; [|exact IH].
  apply Forall_forall. intros item Hin.
  apply filter_In in Hin. destruct Hin as [Hin _].
  apply in_map_iff in Hin. destruct Hin as ([value' count'] & <- & Hin).
  rewrite Forall_forall in Hfresh. exact (Hfresh _ Hin).
Qed.

(** X2. Every map built by the engine has pairwise different keys, so the
    values of a result of [calculateProbabilityDistribution] are strictly
    increasing: no outcome value is listed twice. *)
Theorem result_values_strictly_increase (terms : list ParsedTerm) :
  match evaluateDist terms with
  | Ok d => distinctKeys d
  | Throw _ => True
  end
  /\ StronglySorted strictlyByValue (calculateProbabilityDistribution terms).
Proof.
  split.
  { destruct (evaluateDist terms) as [d|msg] eqn:E; [|exact I].
    eapply evaluateDist_distinct; exact E. }
  unfold calculateProbabilityDistribution.
  destruct terms as [|t rest]; [constructor|].
  destruct (8 <? totalDice (t :: rest)); [constructor|].
  destruct (evaluateDist (t :: rest)) as [d|msg] eqn:E; [|constructor].
  destruct (totalCombinations d =? 0); [constructor|].
  apply sortByValue_strict, normalize_distinct.
  eapply evaluateDist_distinct; exact E.
Qed.

(** ** Total multiplicity *)

Lemma of_nat_to_nat_max (x : Z) : Z.of_nat (Z.to_nat x) = Z.max 0 x.
Proof. lia. Qed.

Lemma totalCombinations_accumulate_all {A : Type} (key : A -> Q) (count : A -> Z)
      (l : list A) :
  forall nextDist,
    totalCombinations
      (fold_left (fun nd e => Dist.accumulate (key e) (count e) nd) l nextDist)
    = totalCombinations nextDist + fold_right (fun e acc => count e + acc) 0 l.
Proof.
  induction l as [|e l IH]; intros nd; simpl; [lia|].
  rewrite IH, totalCombinations_accumulate. lia.
Qed.

Lemma totalCombinations_sum (d : Distribution) :
  fold_right (fun e acc => snd e + acc) 0 d = totalCombinations d.
Proof.
  induction d as [|e d IH]; simpl; [reflexivity|].
  now rewrite totalCombinations_cons, IH.
Qed.

Lemma addDie_face_total (s : Z) (currentDist nextDist : Distribution) :
  totalCombinations
    (fold_left (fun nextDist '(sum, count) =>
                  Dist.accumulate (sum + inject_Z s)%Q count nextDist)
               currentDist nextDist)
  = totalCombinations nextDist + totalCombinations currentDist.
Proof.
  rewrite <- (totalCombinations_sum currentDist).
  rewrite <- (totalCombinations_accumulate_all
                (fun e => (fst e + inject_Z s)%Q) snd currentDist nextDist).
  f_equal. apply fold_left_pointwise. now intros nd [sum count].
Qed.

Lemma addDie_total (sides : Z) (currentDist : Distribution) :
  totalCombinations (addDie sides currentDist)
  = Z.max 0 sides * totalCombinations currentDist.
Proof.
  unfold addDie.
  assert (H : forall l nd,
             totalCombinations
               (fold_left
                  (fun nextDist s =>
                     fold_left
                       (fun nextDist '(sum, count) =>
                          Dist.accumulate (sum + inject_Z s)%Q count nextDist)
                       currentDist nextDist) l nd)
             = totalCombinations nd
               + Z.of_nat (List.length l) * totalCombinations currentDist).
  { induction l as [|s l IH]; intros nd.
    - simpl. lia.
    - cbn [fold_left List.length]. rewrite IH, addDie_face_total. lia. }
  rewrite H. unfold faces. rewrite length_map, length_seq, of_nat_to_nat_max.
  reflexivity.
Qed.

Lemma getTermDistribution_total (count sides : Z) :
  totalCombinations (getTermDistribution (CDice count sides))
  = Z.max 0 sides ^ Z.max 0 count.
Proof.
  unfold getTermDistribution. rewrite <- (of_nat_to_nat_max count).
  induction (Z.to_nat count) as [|n IH].
  - reflexivity.
  - rewrite Nat2Z.inj_succ, Z.pow_succ_r by lia.
    now rewrite Nat.iter_succ, addDie_total, IH.
Qed.

(** X3. The multiplicities of the distribution of [count] dice with [sides]
    faces add up to [sides ^ count], one for every way the dice can fall
    (a count or a number of faces below zero acts as zero); a number term
    has total 1. *)
Theorem dice_distribution_total (count sides : Z) (value : Q) :
  totalCombinations (getTermDistribution (CDice count sides))
  = Z.max 0 sides ^ Z.max 0 count
  /\ totalCombinations (getTermDistribution (CNumber value)) = 1.
Proof. split; [apply getTermDistribution_total | reflexivity]. Qed.

Lemma combineStep_total (op : Operator) (val1 : Q) (count1 : Z)
      (dist2 : Distribution) :
  forall newDist,
    totalCombinations (fold_left (combineStep op val1 count1) dist2 newDist)
    = totalCombinations newDist
      + count1 * totalCombinations
                   (match op with
                    | Divide => filter nonZeroKey dist2
                    | _ => dist2
                    end).
Proof.
  induction dist2 as [|[val2 count2] dist2 IH]; intros newDist.
  - destruct op; cbn [fold_left filter];
      change (totalCombinations []) with 0; lia.
  - cbn [fold_left]. rewrite IH. unfold combineStep.
    destruct op; cbn [combineValues];
      try (rewrite totalCombinations_accumulate, totalCombinations_cons;
           cbn [snd]; lia).
    cbn [filter]. unfold nonZeroKey at 2. cbn [fst].
    destruct (Qeq_bool val2 0); cbn [negb].
    + lia.
    + rewrite totalCombinations_accumulate, totalCombinations_cons.
      cbn [snd]. lia.
Qed.

Lemma combineDistributions_total (op : Operator) (dist1 dist2 : Distribution) :
  totalCombinations (combineDistributions (Some dist1) (Some dist2) op)
  = totalCombinations dist1
    * totalCombinations (match op with
                         | Divide => filter nonZeroKey dist2
                         | _ => dist2
                         end).
Proof.
  unfold combineDistributions.
  assert (H : forall d1 nd,
             totalCombinations
               (fold_left
                  (fun newDist '(val1, count1) =>
                     fold_left (combineStep op val1 count1) dist2 newDist) d1 nd)
             = totalCombinations nd
               + totalCombinations d1
                 * totalCombinations (match op with
                                      | Divide => filter nonZeroKey dist2
                                      | _ => dist2
                                      end)).
  { induction d1 as [|[val1 count1] d1 IH]; intros nd.
    - cbn [fold_left]. change (totalCombinations []) with 0. lia.
    - cbn [fold_left]. rewrite IH, combineStep_total, totalCombinations_cons.
      cbn [snd]. lia. }
  rewrite H. change (totalCombinations []) with 0. lia.
Qed.

(** X4. Combining two distributions multiplies their total multiplicities:
    under [+], [-] and [*] every pair of outcomes is counted, and under [/]
    every pair whose divisor is not zero. *)
Theorem combined_total_is_product (dist1 dist2 : Distribution) :
  totalCombinations (combineDistributions (Some dist1) (Some dist2) Plus)
  = totalCombinations dist1 * totalCombinations dist2
  /\ totalCombinations (combineDistributions (Some dist1) (Some dist2) Minus)
     = totalCombinations dist1 * totalCombinations dist2
  /\ totalCombinations (combineDistributions (Some dist1) (Some dist2) Times)
     = totalCombinations dist1 * totalCombinations dist2
  /\ totalCombinations (combineDistributions (Some dist1) (Some dist2) Divide)
     = totalCombinations dist1 * totalCombinations (filter nonZeroKey dist2).
Proof.
  repeat split.
  - apply (combineDistributions_total Plus).
  - apply (combineDistributions_total Minus).
  - apply (combineDistributions_total Times).
  - apply (combineDistributions_total Divide).
Qed.

(** ** The support of a dice term *)

Lemma keysWithin_eq (lo hi lo' hi' : Q) (d : Distribution) :
  (lo == lo')%Q -> (hi == hi')%Q -> keysWithin lo hi d -> keysWithin lo' hi' d.
Proof.
  intros Hlo Hhi. unfold keysWithin. apply Forall_impl.
  intros e [H1 H2]. now rewrite <- Hlo, <- Hhi.
Qed.

Lemma set_within (lo hi k : Q) (v : Z) (m : Distribution) :
  (lo <= k)%Q -> (k <= hi)%Q -> keysWithin lo hi m ->
  keysWithin lo hi (Dist.set k v m).
Proof.
  intros Hlo Hhi. induction 1 as [|[k' v'] m Hk' Hm IH]; simpl.
  - repeat constructor; assumption.
  - destruct (Qeq_bool k k'); constructor; assumption.
Qed.

Lemma faces_range (sides f : Z) : In f (faces sides) -> 1 <= f <= sides.
Proof.
  unfold faces. intros H. apply in_map_iff in H. destruct H as (n & <- & Hn).
  apply in_seq in Hn. lia.
Qed.

Lemma addDie_within (lo hi : Q) (sides : Z) (currentDist : Distribution) :
  keysWithin lo hi currentDist ->
  keysWithin (lo + 1) (hi + inject_Z sides) (addDie sides currentDist).
Proof.
  intros Hcur. unfold addDie.
  apply fold_left_invariant; [|constructor].
  intros nextDist f Hnext Hf. apply faces_range in Hf.
  apply fold_left_invariant; [|exact Hnext].
  intros nd [sum count] Hnd Hin.
  unfold keysWithin in Hcur. rewrite Forall_forall in Hcur.
  destruct (Hcur _ Hin) as [H1 H2]. simpl in H1, H2.
  apply set_within; [| |exact Hnd].
  - apply Qplus_le_compat; [exact H1|].
    change 1%Q with (inject_Z 1). rewrite <- Zle_Qle. lia.
  - apply Qplus_le_compat; [exact H2|]. rewrite <- Zle_Qle. lia.
Qed.

(** X5. Every outcome in the distribution of [count] dice with [sides]
    faces lies between [count] and [count * sides], the values the term
    resolves to in Min and Max mode. *)
Theorem dice_support_within_min_and_max (count sides : Z) :
  0 <= count ->
  keysWithin (inject_Z count) (inject_Z (count * sides))
             (getTermDistribution (CDice count sides)).
Proof.
  intros Hc. unfold getTermDistribution.
  rewrite <- (Z2Nat.id count Hc) at 1 2.
  induction (Z.to_nat count) as [|n IH].
  - repeat constructor; simpl; apply Qle_refl.
  - rewrite Nat.iter_succ.
    eapply keysWithin_eq; [| |apply addDie_within; exact IH].
    + rewrite Nat2Z.inj_succ. unfold Z.succ. now rewrite inject_Z_plus.
    + rewrite <- inject_Z_plus. rewrite Nat2Z.inj_succ.
      replace (Z.succ (Z.of_nat n) * sides) with (Z.of_nat n * sides + sides)
        by lia.
      reflexivity.
Qed.

(** X5 at [2d6]: every outcome lies between 2 and 12. *)
Lemma two_d6_support_within_2_and_12 :
  0 <= 2
  /\ keysWithin 2 12 (getTermDistribution (CDice 2 6)).
Proof.
  split; [lia|].
  apply (dice_support_within_min_and_max 2 6). lia.
Defined.

(** ** What the tokenizer returns *)

Lemma parseDice_valid (s : string) (count sides : Z) :
  parseDice s = Some (count, sides) -> 1 <= count /\ 1 <= sides.
Proof.
  unfold parseDice.
  destruct (match nth_error (Lex.split "d" s) 0 with
            | Some countStr =>
                if String.eqb countStr EmptyString then Some 1
                else Lex.parseInt countStr
            | None => None
            end) as [c|]; [|discriminate].
  destruct (match nth_error (Lex.split "d" s) 1 with
            | Some sidesStr => Lex.parseInt sidesStr
            | None => None
            end) as [sd|]; [|discriminate].
  destruct (sd <=? 0) eqn:E1; [discriminate|].
  destruct (c <=? 0) eqn:E2; [discriminate|].
  intros H. injection H as <- <-. lia.
Qed.

Lemma classify_valid (token : string) (ts : list ParsedTerm) :
  classify token = Some ts -> Forall validTerm ts.
Proof.
  unfold classify.
  destruct (Lex.isDiceToken token).
  { destruct (parseDice token) as [[c s]|] eqn:Ep; [|discriminate].
    intros H. injection H as <-.
    constructor; [exact (parseDice_valid _ _ _ Ep) | constructor]. }
  destruct (Lex.isNumberToken token).
  { intros H. injection H as <-. repeat constructor. }
  destruct (operatorOf token).
  { intros H. injection H as <-. repeat constructor. }
  destruct (parenOf token).
  { intros H. injection H as <-. repeat constructor. }
  destruct (Lex.isNegDiceToken token); [|discriminate].
  destruct (parseDice (Lex.drop 1 token)) as [[c s]|] eqn:Ep; [|discriminate].
  intros H. injection H as <-.
  constructor; [exact I|]. constructor; [exact I|].
  constructor; [exact (parseDice_valid _ _ _ Ep) | constructor].
Qed.

Lemma parseTokens_valid (tokens : list string) :
  forall openParens parsedTokens out,
    parseTokens tokens openParens parsedTokens = Some out ->
    Forall validTerm parsedTokens -> Forall validTerm out.
Proof.
  induction tokens as [|token rest IH]; simpl; intros d parsed out H Hp.
  - destruct (d =? 0); [|discriminate]. now injection H as <-.
  - destruct (_ <? 0); [discriminate|].
    destruct (classify token) as [ts|] eqn:Ec; [|discriminate].
    eapply IH; [exact H|]. apply Forall_app. split; [exact Hp|].
    eapply classify_valid; exact Ec.
Qed.

Lemma tokenizeFormula_valid (formula : string) (terms : list ParsedTerm) :
  tokenizeFormula formula = Some terms -> Forall validTerm terms.
Proof.
  unfold tokenizeFormula.
  destruct (String.eqb (Lex.clean formula) EmptyString).
  - intros H. injection H as <-. constructor.
  - intros H. eapply parseTokens_valid; [exact H | constructor].
Qed.

(** X8. Every dice term of a sequence returned by [tokenizeFormula] has at
    least one die and at least one face. *)
Theorem tokenized_dice_are_valid (formula : string) (terms : list ParsedTerm) :
  tokenizeFormula formula = Some terms -> Forall validTerm terms.
Proof. apply tokenizeFormula_valid. Qed.

(** X8 at ["3d8+4"]. *)
Lemma tokenized_dice_are_valid_example :
  tokenizeFormula "3d8+4" = Some [DiceTerm 3 8; OperatorTerm Plus; NumberTerm 4]
  /\ Forall validTerm [DiceTerm 3 8; OperatorTerm Plus; NumberTerm 4].
Proof.
  split; [reflexivity|].
  apply (tokenized_dice_are_valid "3d8+4"). reflexivity.
Defined.

(** *** Blanks and letter case *)

Lemma clean_app (a b : string) :
  Lex.clean (a ++ b) = (Lex.clean a ++ Lex.clean b)%string.
Proof.
  induction a as [|c a IH]; simpl; [reflexivity|].
  destruct (Lex.isSpace c); simpl; now rewrite IH.
Qed.

Lemma lower_facts (c : ascii) :
  Lex.isSpace (Lex.lower c) = Lex.isSpace c
  /\ Lex.lower (Lex.lower c) = Lex.lower c.
Proof.
  destruct c as [[|] [|] [|] [|] [|] [|] [|] [|]]; split; reflexivity.
Qed.

Lemma clean_idempotent (s : string) : Lex.clean (Lex.clean s) = Lex.clean s.
Proof.
  induction s as [|c s IH]; simpl; [reflexivity|].
  destruct (Lex.isSpace c) eqn:E; [exact IH|].
  simpl. destruct (lower_facts c) as [H1 H2]. now rewrite H1, E, H2, IH.
Qed.

(** X7. The tokenizer does not see blanks or letter case: a formula and its
    cleaned form tokenize alike, a blank character may be inserted anywhere,
    and any character may be replaced by its lower-case form. *)
Theorem tokenizer_ignores_blanks_and_case :
  (forall s, tokenizeFormula (Lex.clean s) = tokenizeFormula s)
  /\ (forall a c b,
         Lex.isSpace c = true ->
         tokenizeFormula (a ++ String c b) = tokenizeFormula (a ++ b))
  /\ (forall a c b,
         tokenizeFormula (a ++ String (Lex.lower c) b)
         = tokenizeFormula (a ++ String c b)).
Proof.
  split; [|split].
  - intros s. unfold tokenizeFormula. now rewrite clean_idempotent.
  - intros a c b Hc. unfold tokenizeFormula. rewrite !clean_app.
    simpl. now rewrite Hc.
  - intros a c b. unfold tokenizeFormula. rewrite !clean_app. simpl.
    destruct (lower_facts c) as [H1 H2]. rewrite H1.
    destruct (Lex.isSpace c); [reflexivity|]. now rewrite H2.
Qed.

(** X7 at ["2D6 + 3"], which reads like ["2D6+ 3"]. *)
Lemma tokenizer_ignores_blanks_example :
  Lex.isSpace " " = true
  /\ tokenizeFormula ("2D6" ++ String " " "+ 3") = tokenizeFormula ("2D6" ++ "+ 3").
Proof.
  split; [reflexivity|].
  apply (proj1 (proj2 tokenizer_ignores_blanks_and_case) "2D6"%string " "%char).
  reflexivity.
Defined.

(** *** Accepted formulas and the three entry points *)

(** X6. A sequence returned by [tokenizeFormula] never makes the evaluator
    throw: the three statistics are the results of the three evaluations,
    the distribution engine returns a map, and [simulateRoll] reports the
    result of the roll evaluation, so none of the [catch] fallbacks is
    taken. *)
Theorem accepted_formula_never_throws
        (formula : string) (terms : list ParsedTerm) :
  tokenizeFormula formula = Some terms ->
  (exists mn mx av,
      evaluate terms Min = Ok mn /\ evaluate terms Max = Ok mx
      /\ evaluate terms Avg = Ok av
      /\ (terms <> [] -> calculateStats terms = mkStats mn mx av (floor av)))
  /\ (exists d, evaluateDist terms = Ok d)
  /\ (forall random g,
         terms <> [] ->
         exists v g',
           evaluateRoll random (fst (fst (rollTerms random terms [] g)))
                        (snd (rollTerms random terms [] g)) = Ok (v, g')
           /\ total (fst (simulateRoll random terms g)) = v).
Proof.
  intros H. pose proof (tokenizeFormula_balanced formula terms H) as Hbal.
  split; [|split].
  - destruct (evaluate_ok terms Min Hbal) as (mn & E1).
    destruct (evaluate_ok terms Max Hbal) as (mx & E2).
    destruct (evaluate_ok terms Avg Hbal) as (av & E3).
    exists mn, mx, av. repeat split; try assumption.
    intros Hne. unfold calculateStats.
    destruct terms as [|t rest]; [contradiction|]. now rewrite E1, E2, E3.
  - unfold evaluateDist.
    destruct (evaluateWith_ok
                (fun term (st : unit) => (getTermDistribution term, st))
                applyOpDist [(0%Q, 1)] terms tt Hbal) as (d & st & ->).
    now exists d.
  - intros random g Hne. unfold simulateRoll.
    destruct terms as [|t rest]; [contradiction|].
    pose proof (rollTerms_balanced random (t :: rest) 0 [] g) as Hr.
    destruct (rollTerms random (t :: rest) [] g) as [[rolled rd] g1].
    simpl fst in *. simpl snd.
    assert (Hb : parensBalanced rolled = true)
      by (unfold parensBalanced; now rewrite Hr).
    destruct (evaluateWith_ok (resolveTermRoll random) applyOp (Fin 0)
                              rolled g1 Hb) as (v & g2 & E).
    exists v, g2. unfold evaluateRoll. rewrite E. split; reflexivity.
Qed.

(** X6 at ["(1d6+4)/2"]. *)
Lemma accepted_formula_never_throws_example :
  tokenizeFormula "(1d6+4)/2"
  = Some [ParenthesisTerm Open; DiceTerm 1 6; OperatorTerm Plus; NumberTerm 4;
          ParenthesisTerm Close; OperatorTerm Divide; NumberTerm 2]
  /\ exists d,
      evaluateDist [ParenthesisTerm Open; DiceTerm 1 6; OperatorTerm Plus;
                    NumberTerm 4; ParenthesisTerm Close; OperatorTerm Divide;
                    NumberTerm 2] = Ok d.
Proof.
  split; [reflexivity|].
  apply (accepted_formula_never_throws "(1d6+4)/2"). reflexivity.
Defined.

(* ================================================================== *)
(** ** Rolling dice *)

Lemma Qfloor_range (x : Q) (lo hi : Z) :
  (inject_Z lo <= x)%Q -> (x < inject_Z hi)%Q -> lo <= Qfloor x < hi.
Proof.
  intros Hlo Hhi. split.
  - rewrite <- (Qfloor_Z lo). now apply Qfloor_resp_le.
  - rewrite Zlt_Qlt. eapply Qle_lt_trans; [apply Qfloor_le | exact Hhi].
Qed.

Lemma rollDie_range (random : nat -> Q) (sides : Z) (g : nat) :
  unitInterval random -> 1 <= sides ->
  1 <= fst (rollDie random sides g) <= sides
  /\ snd (rollDie random sides g) = S g.
Proof.
  intros Hr Hs. destruct (Hr g) as [H0 H1]. unfold rollDie. cbn [fst snd].
  assert (Hpos : (0 < inject_Z sides)%Q).
  { change 0%Q with (inject_Z 0). rewrite <- Zlt_Qlt. lia. }
  destruct (Qfloor_range (random g * inject_Z sides) 0 sides) as [Ha Hb].
  - apply Qmult_le_0_compat; [exact H0 | now apply Qlt_le_weak].
  - rewrite <- (Qmult_1_l (inject_Z sides)) at 2.
    now apply Qmult_lt_compat_r.
  - split; [lia | reflexivity].
Qed.

Lemma rollSum_range (random : nat -> Q) (sides : Z) (n : nat) :
  unitInterval random -> 1 <= sides ->
  forall sum g,
    sum + Z.of_nat n <= fst (rollSum random n sides sum g)
                     <= sum + Z.of_nat n * sides
    /\ snd (rollSum random n sides sum g) = (g + n)%nat.
Proof.
  intros Hr Hs. induction n as [|n IH]; intros sum g.
  - simpl. split; [lia | now rewrite Nat.add_0_r].
  - cbn [rollSum].
    destruct (rollDie_range random sides g Hr Hs) as [Hd Hg].
    destruct (rollDie random sides g) as [roll g1]. simpl in Hd, Hg. subst g1.
    destruct (IH (sum + roll) (S g)) as [Hsum Hcur].
    split; [nia | rewrite Hcur; lia].
Qed.

(** X9. With random numbers in [[0, 1)] a die with at least one face shows
    a face between 1 and [sides], and the rolled value of [count] such dice
    lies between [count] and [count * sides], the Min and Max values of the
    term; the roll reads exactly [count] random numbers. *)
Theorem rolled_term_within_min_and_max
        (random : nat -> Q) (count sides : Z) (g : nat) :
  unitInterval random -> 0 <= count -> 1 <= sides ->
  1 <= fst (rollDie random sides g) <= sides
  /\ exists sum,
      resolveTermRoll random (CDice count sides) g
      = (Fin (inject_Z sum), (g + Z.to_nat count)%nat)
      /\ count <= sum <= count * sides.
Proof.
  intros Hr Hc Hs. split; [now apply rollDie_range|].
  unfold resolveTermRoll.
  destruct (rollSum_range random sides (Z.to_nat count) Hr Hs 0 g) as [Hsum Hg].
  destruct (rollSum random (Z.to_nat count) sides 0 g) as [sum g1].
  simpl in Hsum, Hg. subst g1. exists sum. split; [reflexivity|].
  rewrite Z2Nat.id in Hsum by exact Hc. lia.
Qed.

(** X9 at [3d8] with every random number equal to 1/2. *)
Lemma rolled_3d8_within_3_and_24 :
  unitInterval (fun _ => 1 # 2)
  /\ exists sum,
      resolveTermRoll (fun _ => 1 # 2) (CDice 3 8) 0
      = (Fin (inject_Z sum), (0 + Z.to_nat 3)%nat)
      /\ 3 <= sum <= 3 * 8.
Proof.
  assert (H : unitInterval (fun _ => 1 # 2)).
  { intros i. split; [discriminate | reflexivity]. }
  split; [exact H|].
  apply (rolled_term_within_min_and_max (fun _ => 1 # 2) 3 8 0 H); lia.
Defined.

Lemma totalDice_from (terms : list ParsedTerm) :
  forall acc,
    fold_left (fun sum term =>
                 match term with
                 | DiceTerm count _ => sum + count
                 | _ => sum
                 end) terms acc
    = acc + totalDice terms.
Proof.
  unfold totalDice.
  induction terms as [|t terms IH]; intros acc; simpl; [lia|].
  destruct t as [count sides|value|op|p]; try apply IH.
  rewrite (IH (acc + count)), (IH count). lia.
Qed.

Lemma totalDice_cons (t : ParsedTerm) (terms : list ParsedTerm) :
  totalDice (t :: terms)
  = match t with
    | DiceTerm count _ => count
    | _ => 0
    end + totalDice terms.
Proof.
  unfold totalDice at 1. cbn [fold_left]. rewrite totalDice_from.
  destruct t; lia.
Qed.

Lemma rollEach_spec (random : nat -> Q) (sides : Z) (n : nat) :
  unitInterval random -> 1 <= sides ->
  forall totalRoll rollDetails g,
  exists new,
    snd (fst (rollEach random n sides totalRoll rollDetails g))
    = rollDetails ++ new
    /\ List.length new = n
    /\ Forall validDetail new
    /\ Forall (fun d => RollDetail.sides d = sides) new
    /\ fst (fst (rollEach random n sides totalRoll rollDetails g))
       = totalRoll + fold_right (fun d acc => RollDetail.value d + acc) 0 new
    /\ snd (rollEach random n sides totalRoll rollDetails g) = (g + n)%nat.
Proof.
  intros Hr Hs. induction n as [|n IH]; intros totalRoll rd g.
  - exists []. simpl. rewrite app_nil_r, Nat.add_0_r.
    repeat split; try constructor. lia.
  - cbn [rollEach].
    destruct (rollDie_range random sides g Hr Hs) as [Hd Hg].
    destruct (rollDie random sides g) as [roll g1]. simpl in Hd, Hg. subst g1.
    destruct (IH (totalRoll + roll) (rd ++ [RollDetail.mk roll sides 1]) (S g))
      as (new & H1 & H2 & H3 & H4 & H5 & H6).
    exists (RollDetail.mk roll sides 1 :: new).
    rewrite H1, H5, H6, <- app_assoc. simpl.
    repeat split; try lia.
    + constructor; [|exact H3]. unfold validDetail. simpl. lia.
    + constructor; [reflexivity | exact H4].
Qed.

Lemma rollTerms_spec (random : nat -> Q) (terms : list ParsedTerm) :
  unitInterval random -> Forall validTerm terms ->
  forall rollDetails g,
  exists new,
    snd (fst (rollTerms random terms rollDetails g)) = rollDetails ++ new
    /\ Forall validDetail new
    /\ Z.of_nat (List.length new) = totalDice terms
    /\ snd (rollTerms random terms rollDetails g) = (g + List.length new)%nat.
Proof.
  intros Hr. induction 1 as [|t terms Ht _ IH]; intros rd g.
  - exists []. simpl. rewrite app_nil_r, Nat.add_0_r. repeat split. constructor.
  - rewrite totalDice_cons.
    destruct t as [count sides|value|op|p]; cbn [rollTerms].
    + destruct Ht as [Hc Hs].
      destruct (rollEach_spec random sides (Z.to_nat count) Hr Hs 0 rd g)
        as (new1 & H1 & H2 & H3 & _ & _ & H6).
      destruct (rollEach random (Z.to_nat count) sides 0 rd g) as [[tr rd1] g1].
      simpl in H1, H6. subst rd1 g1.
      destruct (IH (rd ++ new1) (g + Z.to_nat count)%nat)
        as (new2 & K1 & K2 & K3 & K4).
      destruct (rollTerms random terms (rd ++ new1) (g + Z.to_nat count))
        as [[rest rd2] g2].
      simpl in K1, K4 |- *. subst rd2 g2.
      exists (new1 ++ new2). rewrite <- app_assoc, length_app, H2.
      repeat split.
      * apply Forall_app. now split.
      * rewrite Nat2Z.inj_add, K3. lia.
      * lia.
    + destruct (IH rd g) as (new & K1 & K2 & K3 & K4).
      destruct (rollTerms random terms rd g) as [[rest rd2] g2].
      exists new. simpl in *. now repeat split.
    + destruct (IH rd g) as (new & K1 & K2 & K3 & K4).
      destruct (rollTerms random terms rd g) as [[rest rd2] g2].
      exists new. simpl in *. now repeat split.
    + destruct (IH rd g) as (new & K1 & K2 & K3 & K4).
      destruct (rollTerms random terms rd g) as [[rest rd2] g2].
      exists new. simpl in *. now repeat split.
Qed.

(** ** Formulas without dice *)

Section PureResolution.

Context {V St : Type}.
Variable resolve : CalculationTerm -> St -> V * St.
Variable apply : Operator -> option V -> option V -> V.
Variable default : V.
Variable number : Q -> V.
Hypothesis resolve_number :
  forall value st, resolve (CNumber value) st = (number value, st).

Lemma processTokens_noDice (tokens : list ParsedTerm) :
  noDice tokens = true ->
  forall values ops st,
    processTokens resolve apply tokens values ops st
    = match processTokens (numbersOnly number default) apply tokens values ops tt with
      | Ok (values', ops', _) => Ok (values', ops', st)
      | Throw msg => Throw msg
      end.
Proof.
  induction tokens as [|token rest IH]; intros Hnd values ops st.
  - reflexivity.
  - simpl in Hnd. apply andb_true_iff in Hnd. destruct Hnd as [Ht Hrest].
    destruct token as [count sides|value|tok|[|]]; [discriminate| | | |].
    + cbn [processTokens numbersOnly]. rewrite resolve_number. now apply IH.
    + cbn [processTokens].
      destruct (pushOperator apply tok values ops) as [values1 ops1].
      now apply IH.
    + cbn [processTokens]. now apply IH.
    + cbn [processTokens].
      destruct (closeParen apply values ops) as [[values1 ops1]|msg];
        [now apply IH | reflexivity].
Qed.

Lemma evaluateWith_noDice (tokens : list ParsedTerm) (st : St) :
  noDice tokens = true ->
  evaluateWith resolve apply default tokens st
  = match evaluateWith (numbersOnly number default) apply default tokens tt with
    | Ok (v, _) => Ok (v, st)
    | Throw msg => Throw msg
    end.
Proof.
  intros Hnd. unfold evaluateWith, finalStack.
  destruct tokens as [|t rest]; [reflexivity|].
  rewrite (processTokens_noDice (t :: rest) Hnd).
  destruct (processTokens (numbersOnly number default) apply (t :: rest) [] [] tt)
    as [[[values ops] []]|msg]; [|reflexivity].
  destruct (drain apply values ops); reflexivity.
Qed.

End PureResolution.

Lemma evaluate_noDice (terms : list ParsedTerm) (mode : Mode) :
  noDice terms = true ->
  evaluate terms mode
  = match evaluateWith (numbersOnly Fin (Fin 0)) applyOp (Fin 0) terms tt with
    | Ok (v, _) => Ok v
    | Throw msg => Throw msg
    end.
Proof.
  intros Hnd. unfold evaluate.
  rewrite (evaluateWith_noDice _ applyOp (Fin 0) Fin (fun _ _ => eq_refl) terms tt Hnd).
  now destruct (evaluateWith (numbersOnly Fin (Fin 0)) applyOp (Fin 0) terms tt)
    as [[v []]|msg].
Qed.

Lemma evaluateRoll_noDice (random : nat -> Q) (terms : list ParsedTerm) (g : nat) :
  noDice terms = true ->
  evaluateRoll random terms g
  = match evaluate terms Min with
    | Ok v => Ok (v, g)
    | Throw msg => Throw msg
    end.
Proof.
  intros Hnd. unfold evaluateRoll.
  rewrite (evaluateWith_noDice (resolveTermRoll random) applyOp (Fin 0) Fin
                               (fun _ _ => eq_refl) terms g Hnd).
  rewrite (evaluate_noDice terms Min Hnd).
  now destruct (evaluateWith (numbersOnly Fin (Fin 0)) applyOp (Fin 0) terms tt)
    as [[v []]|msg].
Qed.

(** X12. A formula without dice has one value: the evaluations in Min, Max
    and Average mode agree, and a roll returns the same value without
    reading a random number. *)
Theorem formula_without_dice_is_constant (terms : list ParsedTerm) :
  noDice terms = true ->
  evaluate terms Max = evaluate terms Min
  /\ evaluate terms Avg = evaluate terms Min
  /\ (forall random g,
         evaluateRoll random terms g
         = match evaluate terms Min with
           | Ok v => Ok (v, g)
           | Throw msg => Throw msg
           end).
Proof.
  intros Hnd. split; [|split].
  - now rewrite !(evaluate_noDice terms _ Hnd).
  - now rewrite !(evaluate_noDice terms _ Hnd).
  - intros random g. now apply evaluateRoll_noDice.
Qed.

(** X12 at the formula [(2 + 3) * 4]. *)
Lemma constant_formula_example :
  noDice [ParenthesisTerm Open; NumberTerm 2; OperatorTerm Plus; NumberTerm 3;
          ParenthesisTerm Close; OperatorTerm Times; NumberTerm 4] = true
  /\ evaluate [ParenthesisTerm Open; NumberTerm 2; OperatorTerm Plus; NumberTerm 3;
               ParenthesisTerm Close; OperatorTerm Times; NumberTerm 4] Max
     = evaluate [ParenthesisTerm Open; NumberTerm 2; OperatorTerm Plus; NumberTerm 3;
                 ParenthesisTerm Close; OperatorTerm Times; NumberTerm 4] Min.
Proof.
  split; [reflexivity|].
  apply (formula_without_dice_is_constant
           [ParenthesisTerm Open; NumberTerm 2; OperatorTerm Plus; NumberTerm 3;
            ParenthesisTerm Close; OperatorTerm Times; NumberTerm 4]).
  reflexivity.
Defined.

Lemma rollTerms_noDice (random : nat -> Q) (terms : list ParsedTerm) :
  forall rollDetails g,
    noDice (fst (fst (rollTerms random terms rollDetails g))) = true.
Proof.
  induction terms as [|t rest IH]; intros rd g; [reflexivity|].
  destruct t as [count sides|value|op|p]; cbn [rollTerms].
  - destruct (rollEach random (Z.to_nat count) sides 0 rd g) as [[tr rd1] g1].
    specialize (IH rd1 g1).
    destruct (rollTerms random rest rd1 g1) as [[r rd2] g2]. exact IH.
  - specialize (IH rd g).
    destruct (rollTerms random rest rd g) as [[r rd2] g2]. exact IH.
  - specialize (IH rd g).
    destruct (rollTerms random rest rd g) as [[r rd2] g2]. exact IH.
  - specialize (IH rd g).
    destruct (rollTerms random rest rd g) as [[r rd2] g2]. exact IH.
Qed.

(** X10. For a formula the tokenizer accepts and random numbers in
    [[0, 1)], [simulateRoll] records one roll for every die of the formula,
    each showing a face of its die with sign 1, and reads exactly one random
    number per die. *)
Theorem simulated_roll_records_every_die
        (random : nat -> Q) (formula : string) (terms : list ParsedTerm) (g : nat) :
  unitInterval random -> tokenizeFormula formula = Some terms ->
  Forall validDetail (details (fst (simulateRoll random terms g)))
  /\ Z.of_nat (List.length (details (fst (simulateRoll random terms g))))
     = totalDice terms
  /\ snd (simulateRoll random terms g)
     = (g + List.length (details (fst (simulateRoll random terms g))))%nat.
Proof.
  intros Hr H.
  pose proof (tokenizeFormula_balanced formula terms H) as Hbal.
  pose proof (tokenizeFormula_valid formula terms H) as Hvalid.
  unfold simulateRoll.
  destruct terms as [|t rest].
  { simpl. repeat split; [constructor | now rewrite Nat.add_0_r]. }
  pose proof (rollTerms_balanced random (t :: rest) 0 [] g) as Hb.
  pose proof (rollTerms_noDice random (t :: rest) [] g) as Hnd.
  destruct (rollTerms_spec random (t :: rest) Hr Hvalid [] g)
    as (new & K1 & K2 & K3 & K4).
  destruct (rollTerms random (t :: rest) [] g) as [[rolled rd] g1].
  simpl in K1, K4, Hb, Hnd. subst rd g1.
  assert (Hb' : parensBalanced rolled = true)
    by (unfold parensBalanced; now rewrite Hb).
  rewrite (evaluateRoll_noDice random rolled _ Hnd).
  destruct (evaluate_ok rolled Min Hb') as (v & ->).
  simpl. now repeat split.
Qed.

(** X10 at ["2d6+3"] with every random number equal to 1/2. *)
Lemma simulated_2d6_plus_3_records_two_dice :
  unitInterval (fun _ => 1 # 2)
  /\ tokenizeFormula "2d6+3"
     = Some [DiceTerm 2 6; OperatorTerm Plus; NumberTerm 3]
  /\ Z.of_nat (List.length
                 (details (fst (simulateRoll
                                  (fun _ => 1 # 2)
                                  [DiceTerm 2 6; OperatorTerm Plus; NumberTerm 3]
                                  0))))
     = totalDice [DiceTerm 2 6; OperatorTerm Plus; NumberTerm 3].
Proof.
  assert (H : unitInterval (fun _ => 1 # 2)).
  { intros i. split; [discriminate | reflexivity]. }
  split; [exact H|]. split; [reflexivity|].
  apply (simulated_roll_records_every_die (fun _ => 1 # 2) "2d6+3"); [exact H|].
  reflexivity.
Defined.

(** ** Chains of operators of one precedence *)

Lemma processTokens_operand {St : Type}
      (resolve : CalculationTerm -> St -> num * St) (t : CalculationTerm)
      (rest : list ParsedTerm) (values : list num) (ops : list OpsEntry) (st : St) :
  processTokens resolve applyOp (termOf t :: rest) values ops st
  = processTokens resolve applyOp rest (fst (resolve t st) :: values) ops
                  (snd (resolve t st)).
Proof. destruct t; simpl; now destruct (resolve _ st). Qed.

Lemma processTokens_operator {St : Type}
      (resolve : CalculationTerm -> St -> num * St) (tok : Operator)
      (rest : list ParsedTerm) (values : list num) (ops : list OpsEntry) (st : St) :
  processTokens resolve applyOp (OperatorTerm tok :: rest) values ops st
  = processTokens resolve applyOp rest
                  (fst (pushOperator applyOp tok values ops))
                  (snd (pushOperator applyOp tok values ops)) st.
Proof. simpl. now destruct (pushOperator applyOp tok values ops). Qed.

Lemma pushOperator_same_level (tok op : Operator) (x acc : num) :
  precedence tok = precedence op ->
  pushOperator applyOp tok [x; acc] [OpSym op]
  = ([applyOp op (Some x) (Some acc)], [OpSym tok]).
Proof.
  intros H. cbn [pushOperator].
  replace (precedence tok <=? precedence op) with true
    by (symmetry; apply Z.leb_le; lia).
  reflexivity.
Qed.

Lemma chain_pending (mode : Mode) (level : Z)
      (pairs : list (Operator * CalculationTerm)) :
  Forall (fun p => precedence (fst p) = level) pairs ->
  forall acc op x,
    precedence op = level ->
    match processTokens (fun term (st : unit) => (resolveTerm mode term, st)) applyOp
                        (flat_map (fun p => [OperatorTerm (fst p); termOf (snd p)])
                                  pairs)
                        [x; acc] [OpSym op] tt with
    | Ok (values, ops, _) => drain applyOp values ops
    | Throw msg => Throw msg
    end
    = Ok [fold_left (fun acc p => binop (fst p) acc (resolveTerm mode (snd p)))
                    pairs (binop op acc x)].
Proof.
  induction 1 as [|[op2 t2] pairs Hop2 _ IH]; intros acc op x Hop.
  - reflexivity.
  - cbn [flat_map app fst snd]. simpl in Hop2.
    rewrite processTokens_operator, pushOperator_same_level by lia.
    cbn [fst snd]. rewrite processTokens_operand. cbn [fst snd].
    rewrite (IH (applyOp op (Some x) (Some acc)) op2 (resolveTerm mode t2) Hop2).
    reflexivity.
Qed.

(** X11. In a formula without parentheses whose operators all have the same
    precedence (only [+] and [-], or only [*] and [/]), the operators are
    applied one after the other from left to right, however long the
    formula is. *)
Theorem equal_precedence_chain_left_to_right
        (mode : Mode) (level : Z) (t0 : CalculationTerm)
        (pairs : list (Operator * CalculationTerm)) :
  Forall (fun p => precedence (fst p) = level) pairs ->
  evaluate (chainTerms t0 pairs) mode = Ok (leftToRight mode t0 pairs).
Proof.
  intros Hlevel. unfold evaluate, evaluateWith, finalStack, chainTerms, leftToRight.
  rewrite processTokens_operand. cbn [fst snd].
  destruct Hlevel as [|[op t] pairs Hop Hrest]; [reflexivity|].
  cbn [flat_map app fst snd].
  rewrite processTokens_operator. cbn [pushOperator fst snd].
  rewrite processTokens_operand. cbn [fst snd fold_left].
  pose proof (chain_pending mode level pairs Hrest (resolveTerm mode t0) op
                            (resolveTerm mode t) Hop) as H.
  destruct (processTokens _ applyOp _ [resolveTerm mode t; resolveTerm mode t0]
                          [OpSym op] tt) as [[[values ops] st]|msg];
    [|discriminate].
  rewrite H. reflexivity.
Qed.

(** X11 at [1d6 + 2 - 3] in Max mode: (6 + 2) - 3. *)
Lemma chain_1d6_plus_2_minus_3 :
  Forall (fun p => precedence (fst p) = 1)
         [(Plus, CNumber 2); (Minus, CNumber 3)]
  /\ evaluate (chainTerms (CDice 1 6) [(Plus, CNumber 2); (Minus, CNumber 3)]) Max
     = Ok (leftToRight Max (CDice 1 6) [(Plus, CNumber 2); (Minus, CNumber 3)]).
Proof.
  assert (H : Forall (fun p => precedence (fst p) = 1)
                     [(Plus, CNumber 2); (Minus, CNumber 3)])
    by (repeat constructor).
  split; [exact H|].
  exact (equal_precedence_chain_left_to_right Max 1 (CDice 1 6) _ H).
Defined.

(** ** Well-formed formulas never read a missing operand *)

Section WellFormed.

Context {V St : Type}.
Variable resolve : CalculationTerm -> St -> V * St.
Variables apply1 apply2 : Operator -> option V -> option V -> V.
Variable default : V.
Hypothesis apply_defined :
  forall op b a, apply1 op (Some b) (Some a) = apply2 op (Some b) (Some a).

Lemma reduce_agree (op : Operator) (values : list V) :
  (2 <= List.length values)%nat ->
  reduce apply1 op values = reduce apply2 op values
  /\ S (List.length (reduce apply1 op values)) = List.length values.
Proof.
  destruct values as [|b [|a values]]; simpl; try lia.
  intros _. unfold reduce. cbn [pop]. now rewrite apply_defined.
Qed.

Lemma pushOperator_agree (tok : Operator) (ops : list OpsEntry) :
  forall values,
    List.length values = S (opCount ops) ->
    pushOperator apply1 tok values ops = pushOperator apply2 tok values ops
    /\ List.length (fst (pushOperator apply1 tok values ops))
       = opCount (snd (pushOperator apply1 tok values ops))
    /\ openCount (snd (pushOperator apply1 tok values ops)) = openCount ops.
Proof.
  induction ops as [|[op|] ops IH]; intros values Hlen; simpl in *.
  - repeat split. exact Hlen.
  - destruct (precedence tok <=? precedence op).
    + destruct (reduce_agree op values) as [Hr Hl]; [lia|].
      rewrite <- Hr. apply IH. lia.
    + repeat split. simpl. exact Hlen.
  - repeat split. simpl. exact Hlen.
Qed.

Lemma closeParen_agree (ops : list OpsEntry) :
  forall values,
    List.length values = S (opCount ops) -> 0 < openCount ops ->
    closeParen apply1 values ops = closeParen apply2 values ops
    /\ exists values' ops',
        closeParen apply1 values ops = Ok (values', ops')
        /\ List.length values' = S (opCount ops')
        /\ openCount ops' = openCount ops - 1.
Proof.
  induction ops as [|[op|] ops IH]; intros values Hlen Hopen; simpl in *.
  - lia.
  - destruct (reduce_agree op values) as [Hr Hl]; [lia|].
    rewrite <- Hr. apply IH; lia.
  - split; [reflexivity|]. exists values, ops. repeat split; [exact Hlen | lia].
Qed.

Lemma drain_agree (ops : list OpsEntry) :
  forall values,
    List.length values = S (opCount ops) -> openCount ops = 0 ->
    drain apply1 values ops = drain apply2 values ops
    /\ exists v, drain apply1 values ops = Ok [v].
Proof.
  induction ops as [|[op|] ops IH]; intros values Hlen Hopen; simpl in *.
  - split; [reflexivity|].
    destruct values as [|v [|w values]]; simpl in Hlen; try lia. now exists v.
  - destruct (reduce_agree op values) as [Hr Hl]; [lia|].
    rewrite <- Hr. apply IH; [lia | exact Hopen].
  - pose proof (openCount_nonneg ops). lia.
Qed.

Lemma processTokens_agree (tokens : list ParsedTerm) :
  forall expectOperand values ops st,
    wellFormedFrom expectOperand (openCount ops) tokens = true ->
    (List.length values + (if expectOperand then 1 else 0))%nat
    = S (opCount ops) ->
    processTokens resolve apply1 tokens values ops st
    = processTokens resolve apply2 tokens values ops st
    /\ exists values' ops' st',
        processTokens resolve apply1 tokens values ops st
        = Ok (values', ops', st')
        /\ List.length values' = S (opCount ops')
        /\ openCount ops' = 0.
Proof.
  induction tokens as [|token rest IH]; intros e values ops st Hwf Hlen.
  - simpl in Hwf. apply andb_true_iff in Hwf. destruct Hwf as [He Hd].
    destruct e; [discriminate|]. apply Z.eqb_eq in Hd.
    split; [reflexivity|]. exists values, ops, st.
    repeat split; [lia | exact Hd].
  - destruct token as [count sides|value|tok|[|]]; cbn [wellFormedFrom] in Hwf;
      cbn [processTokens].
    + apply andb_true_iff in Hwf. destruct Hwf as [He Hwf]. subst e.
      destruct (resolve (CDice count sides) st) as [v st1].
      apply (IH false); [exact Hwf | simpl; lia].
    + apply andb_true_iff in Hwf. destruct Hwf as [He Hwf]. subst e.
      destruct (resolve (CNumber value) st) as [v st1].
      apply (IH false); [exact Hwf | simpl; lia].
    + apply andb_true_iff in Hwf. destruct Hwf as [He Hwf].
      destruct e; [discriminate|].
      destruct (pushOperator_agree tok ops values) as (Hp & Hl & Ho); [lia|].
      rewrite <- Hp.
      destruct (pushOperator apply1 tok values ops) as [values1 ops1].
      simpl in Hl, Ho. apply (IH true); [now rewrite Ho | lia].
    + apply andb_true_iff in Hwf. destruct Hwf as [He Hwf]. subst e.
      apply (IH true); [exact Hwf | simpl; lia].
    + apply andb_true_iff in Hwf. destruct Hwf as [Hwf1 Hwf].
      apply andb_true_iff in Hwf1. destruct Hwf1 as [He Hd].
      destruct e; [discriminate|].
      apply negb_true_iff, Z.ltb_ge in Hd.
      destruct (closeParen_agree ops values) as (Hc & v1 & o1 & E & Hl & Ho);
        [lia | lia |].
      rewrite <- Hc, E. apply (IH false); [now rewrite Ho | lia].
Qed.

Lemma evaluateWith_agree (tokens : list ParsedTerm) (st : St) :
  wellFormed tokens = true ->
  evaluateWith resolve apply1 default tokens st
  = evaluateWith resolve apply2 default tokens st
  /\ exists v st', finalStack resolve apply1 tokens st = Ok ([v], st').
Proof.
  intros Hwf. unfold evaluateWith, finalStack.
  destruct (processTokens_agree tokens true [] [] st Hwf eq_refl)
    as (Hp & values & ops & st' & E & Hl & Ho).
  rewrite <- Hp, E.
  destruct (drain_agree ops values Hl Ho) as (Hd & v & Ev).
  rewrite <- Hd, Ev.
  split; [now destruct tokens | now exists v, st'].
Qed.

End WellFormed.

(** X13. When a term sequence is a well-formed infix expression, the
    evaluator never pops an operand that is not there: its result does not
    depend on what an operator does with a missing operand, and exactly one
    value is left on the stack at the end, so the fallback for leftover
    values is not used. *)
Theorem wellformed_formula_uses_defined_operands
        (terms : list ParsedTerm) (mode : Mode) :
  wellFormed terms = true ->
  (forall apply',
      (forall op b a, apply' op (Some b) (Some a) = applyOp op (Some b) (Some a)) ->
      evaluateWith (fun term (st : unit) => (resolveTerm mode term, st))
                   apply' (Fin 0) terms tt
      = evaluateWith (fun term (st : unit) => (resolveTerm mode term, st))
                     applyOp (Fin 0) terms tt)
  /\ (exists v, evaluate terms mode = Ok v)
  /\ (exists d, distStack terms = Ok [d]).
Proof.
  intros Hwf. split; [|split].
  - intros apply' Hdef.
    exact (proj1 (evaluateWith_agree _ apply' applyOp (Fin 0) Hdef terms tt Hwf)).
  - destruct (evaluateWith_agree
                (fun term (st : unit) => (resolveTerm mode term, st))
                applyOp applyOp (Fin 0) (fun _ _ _ => eq_refl) terms tt Hwf)
      as (_ & v & st' & E).
    unfold evaluate, evaluateWith. rewrite E.
    destruct terms; [discriminate|]. now exists v.
  - destruct (evaluateWith_agree
                (fun term (st : unit) => (getTermDistribution term, st))
                applyOpDist applyOpDist [(0%Q, 1)] (fun _ _ _ => eq_refl)
                terms tt Hwf) as (_ & d & st' & E).
    unfold distStack. rewrite E. now exists d.
Qed.

(** X13 at [(1d6 + 4) / 2]. *)
Lemma wellformed_example :
  wellFormed [ParenthesisTerm Open; DiceTerm 1 6; OperatorTerm Plus; NumberTerm 4;
              ParenthesisTerm Close; OperatorTerm Divide; NumberTerm 2] = true
  /\ exists d,
      distStack [ParenthesisTerm Open; DiceTerm 1 6; OperatorTerm Plus;
                 NumberTerm 4; ParenthesisTerm Close; OperatorTerm Divide;
                 NumberTerm 2] = Ok [d].
Proof.
  split; [reflexivity|].
  apply (wellformed_formula_uses_defined_operands
           [ParenthesisTerm Open; DiceTerm 1 6; OperatorTerm Plus; NumberTerm 4;
            ParenthesisTerm Close; OperatorTerm Divide; NumberTerm 2] Min).
  reflexivity.
Defined.

(* ================================================================== *)
(** ** The earlier tokenizer *)

Lemma Legacy_operand_shape (token : string) (ts : list ParsedTerm) :
  Legacy.operand token = Some ts ->
  Forall validTerm ts /\ Forall notParen ts
  /\ forall rest,
      wellFormedFrom true 0 (ts ++ rest) = wellFormedFrom false 0 rest.
Proof.
  unfold Legacy.operand.
  destruct (Legacy.includes "d" _).
  - destruct (parseDice _) as [[c s]|] eqn:Ep; [|discriminate].
    pose proof (parseDice_valid _ _ _ Ep) as Hv.
    intros H. injection H as <-.
    destruct (_ =? -1); cbn [app].
    + split; [|split; [|reflexivity]].
      * constructor; [exact I|]. constructor; [exact I|].
        constructor; [exact Hv | constructor].
      * repeat constructor.
    + split; [|split; [|reflexivity]].
      * constructor; [exact Hv | constructor].
      * repeat constructor.
  - destruct (Lex.digitsPrefix _); [discriminate|].
    intros H. injection H as <-.
    split; [|split; [|reflexivity]]; repeat constructor.
Qed.

Lemma Legacy_loop_wellformed (rest : list string) :
  forall token expectOperand parsedTokens out,
    Legacy.loop token rest expectOperand parsedTokens = Some out ->
    exists suffix,
      out = parsedTokens ++ suffix
      /\ Forall validTerm suffix
      /\ Forall notParen suffix
      /\ wellFormedFrom expectOperand 0 suffix = true.
Proof.
  induction rest as [|nextToken rest IH]; intros token e parsed out H;
    cbn [Legacy.loop] in H.
  - destruct (operatorOf token) as [op|].
    + destruct e; [discriminate|]. cbn [andb] in H.
      rewrite length_app in H. simpl in H. rewrite Nat.add_1_r in H.
      discriminate.
    + destruct e; [|discriminate]. cbn [negb] in H.
      destruct (Legacy.operand token) as [ts|] eqn:Eo; [|discriminate].
      simpl in H. injection H as <-.
      destruct (Legacy_operand_shape token ts Eo) as (Hv & Hn & Hw).
      exists ts. repeat split; [exact Hv | exact Hn |].
      rewrite <- (app_nil_r ts). now rewrite Hw.
  - destruct (operatorOf token) as [op|].
    + destruct (e && isSign token && Lex.startsWithDigit nextToken).
      * exact (IH _ _ _ _ H).
      * destruct e; [discriminate|].
        destruct (IH _ _ _ _ H) as (suffix & -> & Hv & Hn & Hw).
        exists (OperatorTerm op :: suffix). rewrite <- app_assoc.
        repeat split; [now constructor | now constructor | exact Hw].
    + destruct e; [|discriminate]. cbn [negb] in H.
      destruct (Legacy.operand token) as [ts|] eqn:Eo; [|discriminate].
      destruct (Legacy_operand_shape token ts Eo) as (Hv & Hn & Hw).
      destruct (IH _ _ _ _ H) as (suffix & -> & Hv' & Hn' & Hw').
      exists (ts ++ suffix). rewrite <- app_assoc.
      repeat split; [apply Forall_app; now split | apply Forall_app; now split|].
      now rewrite Hw.
Qed.

(** X14. Whatever the earlier tokenizer accepts is either empty or a
    well-formed expression without parentheses: operands and operators
    alternate, the sequence starts and ends with an operand, and every dice
    term has at least one die and one face. *)
Theorem Legacy_tokenizer_returns_wellformed
        (formula : string) (terms : list ParsedTerm) :
  Legacy.tokenizeFormula formula = Some terms ->
  Forall validTerm terms
  /\ Forall notParen terms
  /\ (terms = [] \/ wellFormed terms = true).
Proof.
  unfold Legacy.tokenizeFormula. intros H.
  destruct (String.eqb (Lex.clean formula) EmptyString).
  - injection H as <-. split; [constructor | split; [constructor | now left]].
  - destruct (Legacy.matchAll (Lex.clean formula)) as [|token rest].
    + injection H as <-. split; [constructor | split; [constructor | now left]].
    + destruct (Legacy_loop_wellformed rest token true [] terms H)
        as (suffix & -> & Hv & Hn & Hw).
      repeat split; [exact Hv | exact Hn | now right].
Qed.

(** X14 at ["2d6*2+1d10"]. *)
Lemma Legacy_tokenizer_example :
  Legacy.tokenizeFormula "2d6*2+1d10"
  = Some [DiceTerm 2 6; OperatorTerm Times; NumberTerm 2; OperatorTerm Plus;
          DiceTerm 1 10]
  /\ wellFormed [DiceTerm 2 6; OperatorTerm Times; NumberTerm 2; OperatorTerm Plus;
                 DiceTerm 1 10] = true.
Proof.
  split; [vm_compute; reflexivity|].
  destruct (Legacy_tokenizer_returns_wellformed "2d6*2+1d10"
              [DiceTerm 2 6; OperatorTerm Times; NumberTerm 2; OperatorTerm Plus;
               DiceTerm 1 10]) as (_ & _ & [H|H]).
  - vm_compute. reflexivity.
  - discriminate.
  - exact H.
Defined.

(* ================================================================== *)
(** ** The page *)

Lemma trimStart_clean (s : string) : Lex.clean (Page.trimStart s) = Lex.clean s.
Proof.
  induction s as [|c s IH]; [reflexivity|].
  cbn [Page.trimStart]. destruct (Lex.isSpace c) eqn:E; [|reflexivity].
  rewrite IH. simpl. now rewrite E.
Qed.

Lemma trimEnd_empty (s : string) :
  Page.trimEnd s = EmptyString -> Lex.clean s = EmptyString.
Proof.
  induction s as [|c s IH]; [reflexivity|].
  cbn [Page.trimEnd]. destruct (Page.trimEnd s) as [|c' r]; [|discriminate].
  destruct (Lex.isSpace c) eqn:E; [|discriminate].
  intros _. simpl. rewrite E. now apply IH.
Qed.

Lemma rejected_formula_is_not_blank (formula : string) :
  tokenizeFormula formula = None ->
  String.eqb (Page.trim formula) EmptyString = false.
Proof.
  intros H. destruct (String.eqb (Page.trim formula) EmptyString) eqn:E;
    [|reflexivity].
  apply String.eqb_eq in E. unfold Page.trim in E.
  apply trimEnd_empty in E. rewrite trimStart_clean in E.
  unfold tokenizeFormula in H. rewrite E in H. discriminate.
Qed.

(** X15. The page shows its error message exactly when [parseDiceFormula]
    rejects the formula (the extra test on the trimmed text never changes
    the outcome); for an accepted formula the statistics shown are those of
    [calculateStats], and for a rejected one the statistics are zero and the
    graph is empty. *)
Theorem page_error_iff_formula_rejected (formula : string) :
  (Page.error formula = true <-> parseDiceFormula formula = None)
  /\ (forall terms,
         parseDiceFormula formula = Some terms ->
         Page.stats formula = calculateStats terms)
  /\ (parseDiceFormula formula = None ->
      Page.stats formula = zeroStats /\ Page.probabilityData formula = []).
Proof.
  unfold Page.error, Page.stats, Page.probabilityData, Page.error,
    Page.parsedFormula, parseDiceFormula.
  destruct (tokenizeFormula formula) as [terms|] eqn:E.
  - split; [split; discriminate|]. split; [|discriminate].
    intros terms' H. now injection H as <-.
  - rewrite (rejected_formula_is_not_blank formula E).
    split; [split; reflexivity|]. split; [discriminate|]. now split.
Qed.

(** X15 at the rejected formula ["1d0"]. *)
Lemma page_error_example :
  parseDiceFormula "1d0" = None /\ Page.error "1d0" = true.
Proof.
  split; [reflexivity|].
  apply (proj1 (page_error_iff_formula_rejected "1d0")). reflexivity.
Defined.

(* ================================================================== *)
(** ** When the result is empty *)

Lemma nonempty_distribution_gives_result (t : ParsedTerm) (rest : list ParsedTerm)
      (d : Distribution) :
  totalDice (t :: rest) <= 8 -> evaluateDist (t :: rest) = Ok d -> d <> [] ->
  calculateProbabilityDistribution (t :: rest) <> [].
Proof.
  intros Hd He Hne. unfold calculateProbabilityDistribution.
  apply Z.ltb_ge in Hd. rewrite Hd, He.
  pose proof (evaluateDist_positive _ d He) as Hp.
  pose proof (totalCombinations_positive d Hp Hne) as Hpos.
  destruct (totalCombinations d =? 0) eqn:E; [apply Z.eqb_eq in E; lia|].
  rewrite (normalize_positive d _ Hp Hpos). intros Hnil.
  apply (f_equal (@List.length Outcome.t)) in Hnil.
  rewrite (Permutation_length (sortByValue_perm _)), length_map in Hnil.
  destruct d; [contradiction | discriminate].
Qed.

(** X17. [calculateProbabilityDistribution] returns the empty sequence in
    four cases and no other: the term sequence is empty, it holds more than
    8 dice, the evaluation throws, or the evaluation ends with an empty
    map (every pairing was dropped or an operand was missing). *)
Theorem empty_result_exactly_when (terms : list ParsedTerm) :
  calculateProbabilityDistribution terms = []
  <-> (terms = []
       \/ 8 < totalDice terms
       \/ (exists msg, evaluateDist terms = Throw msg)
       \/ evaluateDist terms = Ok []).
Proof.
  split.
  - intros H. destruct terms as [|t rest]; [now left|]. right.
    destruct (Z.lt_ge_cases 8 (totalDice (t :: rest))) as [Hd|Hd]; [now left|].
    right. destruct (evaluateDist (t :: rest)) as [d|msg] eqn:E.
    + right. destruct d as [|e d]; [reflexivity|]. exfalso.
      apply (nonempty_distribution_gives_result t rest (e :: d) Hd E);
        [discriminate | exact H].
    + left. now exists msg.
  - intros [->|[Hd|[[msg E]|E]]]; [reflexivity| | |];
      unfold calculateProbabilityDistribution;
      destruct terms as [|t rest]; try reflexivity.
    + apply Z.ltb_lt in Hd. now rewrite Hd.
    + rewrite E. now destruct (8 <? _).
    + rewrite E. now destruct (8 <? _).
Qed.

(** X17 at [9d6], which holds more than 8 dice. *)
Lemma empty_result_for_nine_dice :
  8 < totalDice [DiceTerm 9 6]
  /\ calculateProbabilityDistribution [DiceTerm 9 6] = [].
Proof.
  assert (H : 8 < totalDice [DiceTerm 9 6]) by reflexivity.
  split; [exact H|].
  apply (proj2 (empty_result_exactly_when [DiceTerm 9 6])). right. now left.
Defined.

(* ================================================================== *)
(** ** A single die *)

Lemma seq_increasing (n start : nat) : StronglySorted lt (seq start n).
Proof.
  revert start. induction n as [|n IH]; intros start; simpl; constructor.
  - apply IH.
  - apply Forall_forall. intros x Hx. apply in_seq in Hx. lia.
Qed.

Lemma faces_increasing (sides : Z) : StronglySorted Z.lt (faces sides).
Proof.
  unfold faces. induction (seq_increasing (Z.to_nat sides) 1) as [|a l _ IH Ha];
    simpl; constructor; [exact IH|].
  rewrite Forall_forall in Ha |- *. intros x Hx.
  apply in_map_iff in Hx. destruct Hx as (y & <- & Hy).
  specialize (Ha y Hy). lia.
Qed.

Lemma get_fresh (k : Q) (m : Distribution) :
  Forall (fun e => Qeq_bool k (fst e) = false) m -> Dist.get k m = None.
Proof.
  induction 1 as [|[k' v'] m Hk _ IH]; simpl; [reflexivity|].
  simpl in Hk. now rewrite Hk.
Qed.

Lemma set_fresh (k : Q) (v : Z) (m : Distribution) :
  Forall (fun e => Qeq_bool k (fst e) = false) m ->
  Dist.set k v m = m ++ [(k, v)].
Proof.
  induction 1 as [|[k' v'] m Hk _ IH]; simpl; [reflexivity|].
  simpl in Hk. now rewrite Hk, IH.
Qed.

Lemma face_keys_differ (f f' : Z) :
  f <> f' -> Qeq_bool (0 + inject_Z f) (0 + inject_Z f') = false.
Proof.
  intros Hne. destruct (Qeq_bool _ _) eqn:E; [|reflexivity].
  apply Qeq_bool_iff in E. rewrite !Qplus_0_l in E.
  rewrite inject_Z_injective in E. destruct (Hne E).
Qed.

Lemma one_die_entries (l : list Z) :
  StronglySorted Z.lt l ->
  forall nextDist,
    (forall f, In f l ->
               Forall (fun e => Qeq_bool (0 + inject_Z f) (fst e) = false) nextDist) ->
    fold_left (fun nextDist s => Dist.accumulate (0 + inject_Z s)%Q 1 nextDist)
              l nextDist
    = nextDist ++ map (fun f => ((0 + inject_Z f)%Q, 1)) l.
Proof.
  induction 1 as [|f l Hl IH Hf]; intros nd Hfresh.
  - simpl. now rewrite app_nil_r.
  - cbn [fold_left map]. unfold Dist.accumulate at 2.
    rewrite (get_fresh _ nd (Hfresh f (or_introl eq_refl))).
    rewrite (set_fresh _ _ nd (Hfresh f (or_introl eq_refl))).
    rewrite IH.
    + now rewrite <- app_assoc.
    + intros f' Hf'. apply Forall_app. split.
      * apply Hfresh. now right.
      * repeat constructor. simpl. apply face_keys_differ.
        rewrite Forall_forall in Hf. specialize (Hf f' Hf'). lia.
Qed.

Lemma one_die_distribution (sides : Z) :
  getTermDistribution (CDice 1 sides)
  = map (fun f => ((0 + inject_Z f)%Q, 1)) (faces sides).
Proof.
  unfold getTermDistribution. change (Z.to_nat 1) with 1%nat.
  cbn [Nat.iter]. unfold addDie.
  etransitivity.
  { apply fold_left_pointwise
      with (g := fun nextDist s => Dist.accumulate (0 + inject_Z s)%Q 1 nextDist).
    intros nd s. reflexivity. }
  rewrite (one_die_entries (faces sides) (faces_increasing sides) []).
  - reflexivity.
  - intros f _. constructor.
Qed.

Lemma sortByValue_of_sorted (l : list Outcome.t) :
  StronglySorted strictlyByValue l -> sortByValue l = l.
Proof.
  induction 1 as [|x l _ IH Hx]; [reflexivity|].
  cbn [sortByValue fold_right]. fold (sortByValue l). rewrite IH.
  destruct l as [|y l]; [reflexivity|]. simpl.
  inversion Hx as [|? ? Hxy _]; subst. unfold strictlyByValue in Hxy.
  apply Qlt_le_weak, Qle_bool_iff in Hxy. now rewrite Hxy.
Qed.

(** X16. A single die with [sides] faces is uniform: the result lists the
    faces 1 to [sides] in this order, each with probability [1 / sides]. *)
Theorem single_die_is_uniform (sides : Z) :
  1 <= sides ->
  Forall2 outcome_eq
          (calculateProbabilityDistribution [DiceTerm 1 sides])
          (map (fun f => Outcome.mk (inject_Z f) (1 # Z.to_pos sides))
               (faces sides)).
Proof.
  intros Hs.
  assert (Ht : totalCombinations (getTermDistribution (CDice 1 sides)) = sides).
  { rewrite getTermDistribution_total.
    replace (Z.max 0 sides) with sides by lia. apply Z.pow_1_r. }
  assert (He : evaluateDist [DiceTerm 1 sides]
               = Ok (getTermDistribution (CDice 1 sides))) by reflexivity.
  unfold calculateProbabilityDistribution.
  change (8 <? totalDice [DiceTerm 1 sides]) with false. cbv iota.
  rewrite He, Ht.
  replace (sides =? 0) with false by (symmetry; apply Z.eqb_neq; lia).
  rewrite (normalize_positive _ sides (getTermDistribution_positive _))
    by lia.
  rewrite one_die_distribution, map_map.
  rewrite sortByValue_of_sorted.
  - induction (faces sides) as [|f l IH]; simpl; constructor; [|exact IH].
    split; simpl.
    + apply Qplus_0_l.
    + rewrite (Qmake_Qdiv 1 (Z.to_pos sides)), Z2Pos.id by lia. reflexivity.
  - induction (faces_increasing sides) as [|f l _ IH Hf]; simpl; constructor;
      [exact IH|].
    rewrite Forall_forall in Hf |- *. intros y Hy.
    apply in_map_iff in Hy. destruct Hy as (f' & <- & Hf').
    unfold strictlyByValue. simpl. rewrite !Qplus_0_l. rewrite <- Zlt_Qlt.
    exact (Hf f' Hf').
Qed.

(** X16 at a six-sided die. *)
Lemma d6_is_uniform :
  1 <= 6
  /\ Forall2 outcome_eq
             (calculateProbabilityDistribution [DiceTerm 1 6])
             (map (fun f => Outcome.mk (inject_Z f) (1 # 6)) (faces 6)).
Proof.
  split; [lia|].
  apply (single_die_is_uniform 6). lia.
Defined.

(* ================================================================== *)
(** ** Every way the dice can fall is counted once *)

Lemma reduce_total (op : Operator) (values : list Distribution) :
  (2 <= List.length values)%nat -> op <> Divide ->
  stackTotal (reduce applyOpDist op values) = stackTotal values
  /\ S (List.length (reduce applyOpDist op values)) = List.length values.
Proof.
  destruct values as [|b [|a values]]; intros Hlen Hop;
    [simpl in Hlen; lia | simpl in Hlen; lia |].
  split; [|reflexivity].
  unfold reduce. cbn [pop]. unfold stackTotal. cbn [fold_right].
  unfold applyOpDist. rewrite combineDistributions_total.
  destruct op; try lia. contradiction.
Qed.

Lemma noDivisionOnStack_cons (op : Operator) (ops : list OpsEntry) :
  noDivisionOnStack (OpSym op :: ops) = true ->
  op <> Divide /\ noDivisionOnStack ops = true.
Proof.
  simpl. intros H. apply andb_true_iff in H. destruct H as [H1 H2].
  split; [|exact H2]. intros ->. discriminate.
Qed.

Lemma pushOperator_total (tok : Operator) (ops : list OpsEntry) :
  forall values,
    List.length values = S (opCount ops) ->
    noDivisionOnStack ops = true -> tok <> Divide ->
    stackTotal (fst (pushOperator applyOpDist tok values ops)) = stackTotal values
    /\ noDivisionOnStack (snd (pushOperator applyOpDist tok values ops)) = true.
Proof.
  intros values Hlen Hops Htok. revert values Hlen.
  assert (Hpush : forall l, noDivisionOnStack l = true ->
                            noDivisionOnStack (OpSym tok :: l) = true).
  { intros l Hl. simpl. rewrite Hl. now destruct tok. }
  induction ops as [|[op|] ops IH]; intros values Hlen; simpl in Hlen.
  - split; [reflexivity | now apply Hpush].
  - destruct (noDivisionOnStack_cons op ops Hops) as [Hop Hops'].
    cbn [pushOperator]. destruct (precedence tok <=? precedence op).
    + destruct (reduce_total op values) as [Hr Hl]; [lia | exact Hop |].
      destruct (IH Hops' (reduce applyOpDist op values)) as [H1 H2]; [lia|].
      split; [now rewrite H1 | exact H2].
    + split; [reflexivity | now apply Hpush].
  - split; [reflexivity | now apply Hpush].
Qed.

Lemma closeParen_total (ops : list OpsEntry) :
  forall values values' ops',
    List.length values = S (opCount ops) ->
    noDivisionOnStack ops = true ->
    closeParen applyOpDist values ops = Ok (values', ops') ->
    stackTotal values' = stackTotal values /\ noDivisionOnStack ops' = true.
Proof.
  induction ops as [|[op|] ops IH]; intros values values' ops' Hlen Hops E;
    simpl in Hlen, E.
  - discriminate.
  - destruct (noDivisionOnStack_cons op ops Hops) as [Hop Hops'].
    destruct (reduce_total op values) as [Hr Hl]; [lia | exact Hop |].
    assert (Hlen' : List.length (reduce applyOpDist op values) = S (opCount ops))
      by lia.
    destruct (IH _ _ _ Hlen' Hops' E) as [H1 H2].
    split; [now rewrite H1 | exact H2].
  - injection E as <- <-. split; [reflexivity | exact Hops].
Qed.

Lemma drain_total (ops : list OpsEntry) :
  forall values values',
    List.length values = S (opCount ops) ->
    noDivisionOnStack ops = true ->
    drain applyOpDist values ops = Ok values' ->
    stackTotal values' = stackTotal values.
Proof.
  induction ops as [|[op|] ops IH]; intros values values' Hlen Hops E;
    simpl in Hlen, E.
  - now injection E as <-.
  - destruct (noDivisionOnStack_cons op ops Hops) as [Hop Hops'].
    destruct (reduce_total op values) as [Hr Hl]; [lia | exact Hop |].
    assert (Hlen' : List.length (reduce applyOpDist op values) = S (opCount ops))
      by lia.
    rewrite (IH _ _ Hlen' Hops' E). exact Hr.
  - discriminate.
Qed.

Lemma processTokens_total (tokens : list ParsedTerm) :
  forall expectOperand values ops values' ops' st',
    wellFormedFrom expectOperand (openCount ops) tokens = true ->
    noDivision tokens = true ->
    (List.length values + (if expectOperand then 1 else 0))%nat
    = S (opCount ops) ->
    noDivisionOnStack ops = true ->
    processTokens distResolve applyOpDist tokens values ops tt
    = Ok (values', ops', st') ->
    stackTotal values' = stackTotal values * diceOutcomes tokens
    /\ noDivisionOnStack ops' = true.
Proof.
  induction tokens as [|token rest IH];
    intros e values ops values' ops' st' Hwf Hnd Hlen Hops E.
  - simpl in E. injection E as <- <- <-. simpl. split; [lia | exact Hops].
  - simpl in Hnd. apply andb_true_iff in Hnd. destruct Hnd as [Ht Hnd].
    destruct token as [count sides|value|tok|[|]]; cbn [wellFormedFrom] in Hwf;
      cbn [processTokens distResolve] in E; cbn [diceOutcomes fold_right].
    + apply andb_true_iff in Hwf. destruct Hwf as [He Hwf]. subst e.
      assert (Hlen' : (List.length (getTermDistribution (CDice count sides)
                                      :: values) + 0)%nat = S (opCount ops))
        by (simpl; lia).
      destruct (IH false _ _ _ _ _ Hwf Hnd Hlen' Hops E) as [H1 H2].
      split; [|exact H2]. rewrite H1. unfold stackTotal. cbn [fold_right].
      rewrite getTermDistribution_total. fold (stackTotal values).
      fold (diceOutcomes rest). lia.
    + apply andb_true_iff in Hwf. destruct Hwf as [He Hwf]. subst e.
      assert (Hlen' : (List.length (getTermDistribution (CNumber value)
                                      :: values) + 0)%nat = S (opCount ops))
        by (simpl; lia).
      destruct (IH false _ _ _ _ _ Hwf Hnd Hlen' Hops E) as [H1 H2].
      split; [|exact H2]. rewrite H1. unfold stackTotal. cbn [fold_right].
      change (totalCombinations (getTermDistribution (CNumber value))) with 1.
      fold (stackTotal values). fold (diceOutcomes rest). lia.
    + apply andb_true_iff in Hwf. destruct Hwf as [He Hwf].
      destruct e; [discriminate|].
      assert (Htok : tok <> Divide) by (intros ->; discriminate).
      destruct (pushOperator_agree applyOpDist applyOpDist
                                   (fun _ _ _ => eq_refl) tok ops values)
        as (_ & Hl & Ho); [lia|].
      destruct (pushOperator_total tok ops values) as [Hm Hs];
        [lia | exact Hops | exact Htok |].
      destruct (pushOperator applyOpDist tok values ops) as [values1 ops1].
      simpl in Hl, Ho, Hm, Hs. rewrite <- Ho in Hwf.
      assert (Hlen' : (List.length values1 + 1)%nat = S (opCount ops1)) by lia.
      destruct (IH true _ _ _ _ _ Hwf Hnd Hlen' Hs E) as [H1 H2].
      split; [|exact H2]. rewrite H1, Hm. fold (diceOutcomes rest). reflexivity.
    + apply andb_true_iff in Hwf. destruct Hwf as [He Hwf]. subst e.
      assert (Hlen' : (List.length values + 1)%nat
                      = S (opCount (OpenSym :: ops))) by (simpl; lia).
      destruct (IH true _ (OpenSym :: ops) _ _ _ Hwf Hnd Hlen' Hops E)
        as [H1 H2].
      split; [|exact H2]. rewrite H1. fold (diceOutcomes rest). reflexivity.
    + apply andb_true_iff in Hwf. destruct Hwf as [Hwf1 Hwf].
      apply andb_true_iff in Hwf1. destruct Hwf1 as [He Hd].
      destruct e; [discriminate|].
      apply negb_true_iff, Z.ltb_ge in Hd.
      destruct (closeParen_agree applyOpDist applyOpDist
                                 (fun _ _ _ => eq_refl) ops values)
        as (_ & v1 & o1 & Ec & Hl & Ho); [lia | lia |].
      rewrite Ec in E.
      destruct (closeParen_total ops values v1 o1) as [Hm Hs];
        [lia | exact Hops | exact Ec |].
      rewrite <- Ho in Hwf.
      assert (Hlen' : (List.length v1 + 0)%nat = S (opCount o1)) by lia.
      destruct (IH false _ _ _ _ _ Hwf Hnd Hlen' Hs E) as [H1 H2].
      split; [|exact H2]. rewrite H1, Hm. fold (diceOutcomes rest). reflexivity.
Qed.

(** X19. For a well-formed formula without division the distribution
    engine counts every way the dice can fall exactly once: the
    multiplicities of the final map add up to the product of
    [sides ^ count] over the dice terms of the formula. *)
Theorem every_dice_outcome_is_counted_once (terms : list ParsedTerm) :
  wellFormed terms = true -> noDivision terms = true ->
  exists d,
    evaluateDist terms = Ok d
    /\ totalCombinations d = diceOutcomes terms.
Proof.
  intros Hwf Hnd.
  destruct (evaluateWith_agree distResolve applyOpDist applyOpDist [(0%Q, 1)]
                               (fun _ _ _ => eq_refl) terms tt Hwf)
    as (_ & d & st' & E).
  exists d. split.
  - unfold evaluateDist, evaluateWith. fold distResolve. rewrite E.
    destruct terms; [discriminate | reflexivity].
  - unfold finalStack in E.
    destruct (processTokens distResolve applyOpDist terms [] [] tt)
      as [[[values ops] st1]|msg] eqn:Ep; [|discriminate].
    destruct (processTokens_agree distResolve applyOpDist applyOpDist
                                  (fun _ _ _ => eq_refl) terms true [] [] tt
                                  Hwf eq_refl)
      as (_ & values2 & ops2 & st2 & Ep2 & Hl & Ho).
    rewrite Ep in Ep2. injection Ep2 as <- <- <-.
    destruct (processTokens_total terms true [] [] values ops st1 Hwf Hnd
                                  eq_refl eq_refl Ep) as [Hm Hs].
    destruct (drain applyOpDist values ops) as [values'|msg] eqn:Ed;
      [|discriminate].
    injection E as -> <-.
    pose proof (drain_total ops values [d] Hl Hs Ed) as Hd.
    rewrite Hm in Hd. cbn [stackTotal fold_right] in Hd. lia.
Qed.

(** X19 at [2d6 * 2 + 1d10]: 36 * 10 ways. *)
Lemma outcomes_of_2d6_times_2_plus_1d10 :
  wellFormed [DiceTerm 2 6; OperatorTerm Times; NumberTerm 2; OperatorTerm Plus;
              DiceTerm 1 10] = true
  /\ exists d,
      evaluateDist [DiceTerm 2 6; OperatorTerm Times; NumberTerm 2;
                    OperatorTerm Plus; DiceTerm 1 10] = Ok d
      /\ totalCombinations d = 360.
Proof.
  split; [reflexivity|].
  apply (every_dice_outcome_is_counted_once
           [DiceTerm 2 6; OperatorTerm Times; NumberTerm 2; OperatorTerm Plus;
            DiceTerm 1 10]); reflexivity.
Defined.

(* ================================================================== *)
(** ** Min, Average and Max are resolved term by term *)

(** X20. For one dice term the three resolutions are ordered,
    Min <= Average <= Max.  The modes resolve each term on its own and do
    not look at the operator in front of it: in [n - c d s], with at least
    one die of at least two faces, the value computed in Min mode is
    [n - c], the value computed in Max mode is [n - c * s], and the second
    is the smaller one. *)
Theorem modes_resolve_terms_independently :
  (forall c s,
      0 <= c -> 1 <= s ->
      num_le (resolveTerm Min (CDice c s)) (resolveTerm Avg (CDice c s))
      /\ num_le (resolveTerm Avg (CDice c s)) (resolveTerm Max (CDice c s)))
  /\ (forall n c s,
         1 <= c -> 2 <= s ->
         exists mn mx,
           evaluate [NumberTerm n; OperatorTerm Minus; DiceTerm c s] Min = Ok mn
           /\ evaluate [NumberTerm n; OperatorTerm Minus; DiceTerm c s] Max = Ok mx
           /\ num_eq mn (Fin (n - inject_Z c))
           /\ num_eq mx (Fin (n - inject_Z (c * s)))
           /\ num_lt mx mn).
Proof.
  split.
  - intros c s Hc Hs. cbn [resolveTerm num_le].
    assert (H1 : (2 * inject_Z c <= inject_Z (c * (s + 1)))%Q).
    { change 2%Q with (inject_Z 2). rewrite <- inject_Z_mult, <- Zle_Qle. nia. }
    assert (H2 : (inject_Z (c * (s + 1)) <= 2 * inject_Z (c * s))%Q).
    { change 2%Q with (inject_Z 2). rewrite <- inject_Z_mult, <- Zle_Qle. nia. }
    assert (E : (inject_Z c * (inject_Z s + 1) == inject_Z (c * (s + 1)))%Q).
    { rewrite inject_Z_mult, inject_Z_plus. reflexivity. }
    assert (E' : (inject_Z c * inject_Z s == inject_Z (c * s))%Q)
      by (now rewrite inject_Z_mult).
    rewrite E', E. split.
    + apply Qle_shift_div_l; [reflexivity | lra].
    + apply Qle_shift_div_r; [reflexivity | lra].
  - intros n c s Hc Hs.
    exists (Fin (n - inject_Z c * 1)), (Fin (n - inject_Z c * inject_Z s)).
    split; [reflexivity|]. split; [reflexivity|].
    assert (H : (inject_Z c < inject_Z (c * s))%Q) by (rewrite <- Zlt_Qlt; nia).
    cbn [num_eq num_lt]. rewrite <- inject_Z_mult.
    repeat split; lra.
Qed.

(** X20 at [1d6] and at [10 - 1d6]. *)
Lemma modes_example_10_minus_1d6 :
  1 <= 1 /\ 2 <= 6
  /\ exists mn mx,
      evaluate [NumberTerm 10; OperatorTerm Minus; DiceTerm 1 6] Min = Ok mn
      /\ evaluate [NumberTerm 10; OperatorTerm Minus; DiceTerm 1 6] Max = Ok mx
      /\ num_eq mn (Fin (10 - inject_Z 1))
      /\ num_eq mx (Fin (10 - inject_Z (1 * 6)))
      /\ num_lt mx mn.
Proof.
  split; [lia|]. split; [lia|].
  apply (proj2 modes_resolve_terms_independently 10%Q 1 6); lia.
Defined.

(* ================================================================== *)
(** ** Precedence and parentheses *)












